(** * ResourceController: a shallow embedding of the generic REST resource
      controller (src/Controllers/ResourceController.js) and the properties
      of its handlers.

    The controller is asynchronous JavaScript that talks to collaborators
    (the storage engine, the validator, the file system, the response
    object).  Each handler is embedded as a computation in a state and
    exception monad over a [World]: the stored records, the entity's field
    descriptors, and the log of every collaborator call made so far.
    Collaborators are a record of oracles, [Collaborators]; every theorem
    quantifies over it. *)

From stdpp Require Import gmap strings list fin_maps pretty.
From Stdlib Require Import ZArith Lia Ascii String.

Local Open Scope string_scope.
Local Open Scope Z_scope.
Local Open Scope list_scope.
Set Warnings "-register-all".

(** ** JavaScript values *)

Module JS.

(** JSON-like data as the handlers see it.  Objects are finite maps of
    their own properties; numbers are the integers. *)
Inductive value : Type :=
| VUndefined
| VNull
| VBool (b : bool)
| VNum (n : Z)
| VStr (s : string)
| VRegExp (source flags : string)
| VArr (items : list value)
| VObj (props : gmap string value).

(** Truthiness, as [if (v)] and [a || b] decide it. *)
Definition truthy (v : value) : bool :=
  match v with
  | VUndefined | VNull => false
  | VBool b => b
  | VNum n => negb (n =? 0)
  | VStr s => negb (String.eqb s "")
  | VRegExp _ _ | VArr _ | VObj _ => true
  end.

(** [Array.prototype.join(",")] on already converted items. *)
Definition join_comma (l : list string) : string := String.concat "," l.

(** [String(v)]. Inside an array, null and undefined print as nothing. *)
Fixpoint String_ (v : value) : string :=
  match v with
  | VUndefined => "undefined"
  | VNull => "null"
  | VBool true => "true"
  | VBool false => "false"
  | VNum n => pretty n
  | VStr s => s
  | VRegExp src fl => ("/" ++ src ++ "/" ++ fl)%string
  | VArr items =>
      join_comma
        (List.map (fun x => match x with
                            | VUndefined | VNull => ""
                            | _ => String_ x
                            end) items)
  | VObj _ => "[object Object]"
  end.

(** JavaScript numbers as far as the controller computes with them: an
    integer, or one of the non-finite results of arithmetic on a missing
    operand or of a division by zero. *)
Inductive number : Type :=
| Fin (z : Z)
| NaN
| Infinity
| NegInfinity.

(** [ToNumber] of a possibly undefined integer property. *)
Definition to_number (o : option Z) : number :=
  match o with Some z => Fin z | None => NaN end.

(** [a - b] and [a * b], for the operands the handlers produce (an integer or
    NaN on the left, an integer on the right). *)
Definition num_sub (a : number) (b : Z) : number :=
  match a with
  | Fin x => Fin (x - b)
  | other => other
  end.

Definition num_mul (a : number) (b : Z) : number :=
  match a with
  | Fin x => Fin (x * b)
  | NaN => NaN
  | Infinity => if b =? 0 then NaN else if 0 <? b then Infinity else NegInfinity
  | NegInfinity => if b =? 0 then NaN else if 0 <? b then NegInfinity else Infinity
  end.

(** [Math.ceil(a / b)] on integers: the ceiling of the exact quotient, and
    the IEEE results of a division by zero. *)
Definition Math_ceil_div (a b : Z) : number :=
  if b =? 0 then
    (if a =? 0 then NaN else if 0 <? a then Infinity else NegInfinity)
  else Fin (- ((- a) / b)).

(** [s.split(sep)] for a one-character separator: the pieces between the
    separators, empty pieces included; never the empty list. *)
Fixpoint split (sep : ascii) (s : string) : list string :=
  match s with
  | EmptyString => [""]
  | String c rest =>
      if Ascii.eqb c sep then "" :: split sep rest
      else match split sep rest with
           | piece :: pieces => String c piece :: pieces
           | [] => [String c ""]
           end
  end.

(** [s.includes(c)] for a one-character needle. *)
Fixpoint includes (c : ascii) (s : string) : bool :=
  match s with
  | EmptyString => false
  | String d rest => Ascii.eqb d c || includes c rest
  end.

End JS.
Export JS.

(** ** Exceptions and the handler monad *)

Inductive exn : Type :=
| HttpException (message : string) (status : Z)
| TypeError
| SyntaxError
| Raised (what : string).    (* thrown by a collaborator *)

Inductive res (A : Type) : Type :=
| Ok (a : A)
| Throw (e : exn).
Arguments Ok {A} a.
Arguments Throw {A} e.

(** ** The data model *)

(** A field descriptor.  A flag the entity does not set is [None]
    (undefined); the handlers only ever test a flag against [false]. *)
Record FieldDescriptor : Type := {
  listable : option bool;
  searchable : option bool;
  editable : option bool;
  viewable : option bool;
  role : option string;
  ref : option string;
  label : option string;
  selectSize : option Z
}.

(** [Model.fields]: the descriptors by field name, in the object's own
    enumeration order. *)
Abbreviation Fields := (list (string * FieldDescriptor)).

(** A plain object with its properties in enumeration order (a submitted
    payload, the result of [_.omitBy]). *)
Definition Obj (A : Type) : Type := list (string * A).

(** [o[k]]: the object's own property, or [None] for undefined. *)
Fixpoint obj_get {A} (k : string) (o : Obj A) : option A :=
  match o with
  | [] => None
  | (k', v) :: rest => if String.eqb k' k then Some v else obj_get k rest
  end.

(** [o[k] = v]: an existing property keeps its place, a new one goes last. *)
Fixpoint obj_set {A} (k : string) (v : A) (o : Obj A) : Obj A :=
  match o with
  | [] => [(k, v)]
  | (k', v') :: rest =>
      if String.eqb k' k then (k', v) :: rest else (k', v') :: obj_set k v rest
  end.

Definition obj_keys {A} (o : Obj A) : list string := List.map fst o.
Definition obj_values {A} (o : Obj A) : list A := List.map snd o.

(** [_.omitBy(o, pred)] for a predicate that cannot throw. *)
Definition omitBy {A} (pred : A -> string -> bool) (o : Obj A) : Obj A :=
  List.filter (fun kv => negb (pred (snd kv) (fst kv))) o.

(** [_.omitBy(o, pred)] for a predicate that may throw: the properties are
    visited in order and the first exception ends the iteration. *)
Fixpoint omitByM {A} (pred : A -> string -> res bool) (o : Obj A)
  : res (Obj A) :=
  match o with
  | [] => Ok []
  | (k, v) :: rest =>
      match pred v k with
      | Throw e => Throw e
      | Ok drop =>
          match omitByM pred rest with
          | Throw e => Throw e
          | Ok rest' => Ok (if drop then rest' else (k, v) :: rest')
          end
      end
  end.

(** A stored record or a model instance: its attributes. *)
Abbreviation Row := (gmap string value).

(** The requesting principal ([auth.user]).  [can], [getPermissions] and
    [isRole] are methods the object may or may not expose. *)
Record Actor : Type := {
  can : option (string -> bool);
  getPermissions : option (list string);
  isRole : option (option string -> bool);
  _id : value
}.

(** The query object of the request ([ctx.query]); its [where] is always an
    object, its [page] and [perPage] integers when present. *)
Record QuerySpec : Type := {
  where_ : gmap string value;
  page : option Z;
  perPage : option Z;
  with_ : option (list string);
  appends : option (list string);
  withTrash : bool
}.

(** The inputs the [options] and [stat] handlers read from the request:
    request inputs are strings, absent when the client did not send them. *)
Record Inputs : Type := {
  in_text : option string;
  in_value : option string;
  in_where : option string;
  in_limit : option value;
  in_group : option string
}.

(** The request context handed to every handler. *)
Record Ctx : Type := {
  params_resource : string;
  auth_user : option Actor;
  query : QuerySpec;
  request_all : Obj value;
  request_inputs : Inputs;
  model : Row;
  Model_label : option string;
  Model_name : string
}.

(** The query a handler builds before running it:
    [Model.query(q).select(..).skip(..).limit(..).ignoreScopes(..)];
    a part the handler never sets is [None]. *)
Record QueryBuilder : Type := {
  qb_query : option QuerySpec;
  qb_select : option (list string);
  qb_skip : option number;
  qb_limit : option Z;
  qb_ignoreScopes : list string
}.

Definition Model_query (q : option QuerySpec) : QueryBuilder :=
  {| qb_query := q; qb_select := None; qb_skip := None; qb_limit := None;
     qb_ignoreScopes := [] |}.
Definition select (cols : list string) (qb : QueryBuilder) : QueryBuilder :=
  {| qb_query := qb_query qb; qb_select := Some cols; qb_skip := qb_skip qb;
     qb_limit := qb_limit qb; qb_ignoreScopes := qb_ignoreScopes qb |}.
Definition skip (n : number) (qb : QueryBuilder) : QueryBuilder :=
  {| qb_query := qb_query qb; qb_select := qb_select qb; qb_skip := Some n;
     qb_limit := qb_limit qb; qb_ignoreScopes := qb_ignoreScopes qb |}.
Definition limit (n : Z) (qb : QueryBuilder) : QueryBuilder :=
  {| qb_query := qb_query qb; qb_select := qb_select qb; qb_skip := qb_skip qb;
     qb_limit := Some n; qb_ignoreScopes := qb_ignoreScopes qb |}.
Definition ignoreScopes (names : list string) (qb : QueryBuilder)
  : QueryBuilder :=
  {| qb_query := qb_query qb; qb_select := qb_select qb; qb_skip := qb_skip qb;
     qb_limit := qb_limit qb; qb_ignoreScopes := names |}.

(** The workbook handed to the spreadsheet writer: named sheets of rows of
    cells. *)
Definition Workbook : Type := list (string * list (list value)).

(** ** The world and the collaborators *)

(** One entry per call a handler makes to a collaborator, with the
    arguments of the call. *)
Inductive Event : Type :=
| EFetch (qb : QueryBuilder)                    (* modelQuery.fetch() *)
| ECount (qb : QueryBuilder)                    (* Model.query(q).count() *)
| EQueryDelete (qb : QueryBuilder)              (* Model.query().delete() *)
| EFetchAppends (row : Row) (names : list string)
| EBuildOptions                                 (* Model.buildOptions() *)
| ELabels                                       (* Model.labels() *)
| EValidate (data : Obj value)                  (* model.validate(data) *)
| EMerge (data : Obj value)                     (* model.merge(data) *)
| ESave (instance : Row)                        (* model.save() *)
| EDelete (instance : Row)                      (* model.delete() *)
| EFetchOptions (value_ text : string) (cond : gmap string value)
                (lim : number)                  (* Model.fetchOptions(..) *)
| EGroupCount (group : string)                  (* Model.count(group) *)
| EMkdir (path : string)                        (* fs.mkdirSync *)
| EWriteFile (path : string) (buffer : Workbook)   (* fs.writeFileSync *)
| EAttachment (path name : string).             (* response.attachment *)

Record World : Type := {
  db : list Row;          (* the entity's stored records *)
  fields : Fields;        (* Model.fields *)
  log : list Event        (* the collaborator calls made so far, oldest first *)
}.

(** What the collaborators answer.  The storage calls see the stored
    records; a call that fails answers [Throw]. *)
Record Collaborators : Type := {
  restrict_field : option string;   (* the configured 'rbac.restrict_field' *)
  fetch : list Row -> QueryBuilder -> res (list Row);
  count : list Row -> QueryBuilder -> res Z;
  query_delete : list Row -> QueryBuilder -> res (list Row);
  fetchAppends : Row -> list string -> res Row;
  buildOptions : Fields -> res Fields;
  labels : Fields -> res value;
  validate : Row -> Obj value -> res unit;
  merge : Row -> Obj value -> Row;
  save : list Row -> Row -> res (list Row * Row);
  delete_ : list Row -> Row -> res (list Row);
  fetchOptions : list Row -> string -> string -> gmap string value ->
                 number -> res value;
  group_count : list Row -> string -> res (list (value * value));
  toJSON : Row -> value;                      (* one row of data.toJSON() *)
  getValue : value -> string -> value;        (* Model.getValue(row, k) *)
  titleize : string -> string;                (* inflection.titleize *)
  JSON_parse : string -> res (gmap string value);
  regexp_valid : string -> bool;              (* does the pattern compile *)
  parseInt : value -> number;
  tmpPath : option string -> string;          (* Helpers.tmpPath *)
  random_text : string;                       (* the text of Math.random() *)
  now_text : string;                          (* new Date().toLocaleString() *)
  writeFileSync : string -> Workbook -> res unit
}.

(** The handler monad: state passing over the world, with exceptions; the
    world a computation reached is kept when it throws. *)
Definition M (A : Type) : Type := World -> res A * World.

Definition ret {A} (a : A) : M A := fun w => (Ok a, w).
Definition throw {A} (e : exn) : M A := fun w => (Throw e, w).
Definition bind {A B} (m : M A) (k : A -> M B) : M B :=
  fun w => match m w with
           | (Ok a, w') => k a w'
           | (Throw e, w') => (Throw e, w')
           end.
Definition lift {A} (r : res A) : M A := fun w => (r, w).
Definition emit (e : Event) : M unit :=
  fun w => (Ok tt, {| db := db w; fields := fields w; log := log w ++ [e] |}).
Definition get_db : M (list Row) := fun w => (Ok (db w), w).
Definition put_db (d : list Row) : M unit :=
  fun w => (Ok tt, {| db := d; fields := fields w; log := log w |}).
Definition get_fields : M Fields := fun w => (Ok (fields w), w).
Definition put_fields (f : Fields) : M unit :=
  fun w => (Ok tt, {| db := db w; fields := f; log := log w |}).

Notation "'do' x <- m ; k" := (bind m (fun x => k))
  (at level 10, x name, m at level 100, k at level 200).
Notation "'do' ' p <- m ; k" := (bind m (fun x => let 'p := x in k))
  (at level 10, p strict pattern, m at level 100, k at level 200).
Notation "'exec' m ; k" := (bind m (fun _ => k))
  (at level 10, m at level 100, k at level 200).

(** What a handler returns to the routing layer. *)
Inductive Reply : Type :=
| RPage (page : option Z) (perPage total : Z) (lastPage : number)
        (data : list Row)
| RAttachment (path name : string)
| RGrid (searchFields : Fields) (searchModel : Obj value) (fields : Fields)
| RForm (labels : value) (fields : Fields) (model : Row)
                                             (* { labels, fields, model } *)
| RModel (model : Row)
| RSuccess                                   (* { success: true } *)
| ROptions (ret : value)
| RStat (labels : list string) (backgroundColor : list string)
        (data : list value).

(** ** The controller *)

Section ResourceController.

Context (C : Collaborators).

(** *** Calls to the collaborators: log the call, then take the answer *)

Definition call_fetch (qb : QueryBuilder) : M (list Row) :=
  exec emit (EFetch qb);
  do d <- get_db;
  lift (fetch C d qb).

Definition call_count (qb : QueryBuilder) : M Z :=
  exec emit (ECount qb);
  do d <- get_db;
  lift (count C d qb).

Definition call_query_delete (qb : QueryBuilder) : M unit :=
  exec emit (EQueryDelete qb);
  do d <- get_db;
  do d' <- lift (query_delete C d qb);
  put_db d'.

Definition call_fetchAppends (row : Row) (names : list string) : M Row :=
  exec emit (EFetchAppends row names);
  lift (fetchAppends C row names).

Definition call_buildOptions : M unit :=
  exec emit EBuildOptions;
  do f <- get_fields;
  do f' <- lift (buildOptions C f);
  put_fields f'.

Definition call_labels : M value :=
  exec emit ELabels;
  do f <- get_fields;
  lift (labels C f).

Definition call_validate (instance : Row) (data : Obj value) : M unit :=
  exec emit (EValidate data);
  lift (validate C instance data).

Definition call_merge (instance : Row) (data : Obj value) : M Row :=
  exec emit (EMerge data);
  ret (merge C instance data).

Definition call_save (instance : Row) : M Row :=
  exec emit (ESave instance);
  do d <- get_db;
  do '(d', saved) <- lift (save C d instance);
  exec put_db d';
  ret saved.

Definition call_delete (instance : Row) : M unit :=
  exec emit (EDelete instance);
  do d <- get_db;
  do d' <- lift (delete_ C d instance);
  put_db d'.

(** *** guard *)

(** [if (user && user.can && !user.can(permission)) throw 403]. *)
Definition guard (user : option Actor) (permission : string) : M unit :=
  match user with
  | Some u =>
      match can u with
      | Some check =>
          if negb (check permission)
          then throw (HttpException "No privileges." 403)
          else ret tt
      | None => ret tt
      end
  | None => ret tt
  end.

(** *** processData *)

(** [for (let row of data.rows) await row.fetchAppends(ctx, names)]: the
    rows are resolved one after the other, in order, each in place. *)
Fixpoint fetchAppends_each (names : list string) (rows : list Row)
  : M (list Row) :=
  match rows with
  | [] => ret []
  | row :: rest =>
      do row' <- call_fetchAppends row names;
      do rest' <- fetchAppends_each names rest;
      ret (row' :: rest')
  end.

Definition processData (q : QuerySpec) (data : list Row) : M (list Row) :=
  match appends q with
  | Some names => fetchAppends_each names data
  | None => ret data
  end.

(** *** index *)

(** [query.where[field] = v]. *)
Definition set_where (field : string) (v : value) (q : QuerySpec) : QuerySpec :=
  {| where_ := <[field := v]> (where_ q); page := page q; perPage := perPage q;
     with_ := with_ q; appends := appends q; withTrash := withTrash q |}.

(** [Config.get('rbac.restrict_field', 'user_ids')]. *)
Definition ownership_field : string := default "user_ids" (restrict_field C).

(** The scoping step of [index]: an actor whose permissions include
    'groups.@' has the ownership field of the query set to its own id. *)
Definition scope_query (user : Actor) (q : QuerySpec) : QuerySpec :=
  match getPermissions user with
  | Some perms =>
      if bool_decide ("groups.@" ∈ perms)
      then set_where ownership_field (VStr (String_ (_id user))) q
      else q
  | None => q
  end.

(** [auth.user.<property>] on a user that may be null. *)
Definition the_user (ctx : Ctx) : M Actor :=
  match auth_user ctx with
  | Some u => ret u
  | None => throw TypeError
  end.

Definition index (ctx : Ctx) : M Reply :=
  exec guard (auth_user ctx) (params_resource ctx ++ ".index")%string;
  do user <- the_user ctx;
  let q := scope_query user (query ctx) in
  do flds <- get_fields;
  let listed := omitBy (fun v _ => bool_decide (listable v = Some false)) flds in
  let page_ := page q in
  let perPage_ := default 20 (perPage q) in
  let offset := num_mul (num_sub (to_number page_) 1) perPage_ in
  let limit_ := perPage_ in
  let modelQuery :=
    limit limit_ (skip offset (select (obj_keys listed) (Model_query (Some q)))) in
  let modelQuery :=
    if withTrash q then ignoreScopes ["softDeletes"] modelQuery else modelQuery in
  do data <- call_fetch modelQuery;
  do total <- call_count (Model_query (Some q));
  let lastPage := Math_ceil_div total perPage_ in
  do data <- processData q data;
  ret (RPage page_ perPage_ total lastPage data).

(** *** import *)

Definition import (ctx : Ctx) : M Reply :=
  exec guard (auth_user ctx) (params_resource ctx ++ ".import")%string;
  throw (HttpException "Not implemented." 400).

(** *** export *)

(** The fields [export] writes: listable ones, without '_actions'. *)
Definition export_fields (flds : Fields) : Fields :=
  omitBy (fun v k => bool_decide (listable v = Some false)
                     || bool_decide (k ∈ ["_actions"])) flds.

(** The relations to load: for every exported field with a (non-empty)
    [ref], the part of the reference before its first dot. *)
Definition populate (flds : Fields) : list string :=
  List.concat
    (List.map (fun kv => match ref (snd kv) with
                         | Some r => if String.eqb r "" then []
                                     else [hd "" (split "." r)]
                         | None => []
                         end) flds).

(** [if (!query.with) query.with = []; query.with = query.with.concat(p)]. *)
Definition add_with (p : list string) (q : QuerySpec) : QuerySpec :=
  {| where_ := where_ q; page := page q; perPage := perPage q;
     with_ := Some (default [] (with_ q) ++ p)%list;
     appends := appends q; withTrash := withTrash q |}.

(** A header cell: [field.label || inflection.titleize(key)]. *)
Definition header_cell (kv : string * FieldDescriptor) : value :=
  match label (snd kv) with
  | Some l => if String.eqb l "" then VStr (titleize C (fst kv)) else VStr l
  | None => VStr (titleize C (fst kv))
  end.

(** The line of one record: one cell per exported field. *)
Definition sheet_line (flds : Fields) (row : value) : list value :=
  List.map (fun kv => getValue C row (fst kv)) flds.

(** The sheet: the header row, then one line per row of [data.toJSON()]. *)
Definition sheet (flds : Fields) (data : list Row) : list (list value) :=
  List.map header_cell flds
    :: List.map (fun row => sheet_line flds (toJSON C row)) data.

Definition export (ctx : Ctx) : M Reply :=
  exec guard (auth_user ctx) (params_resource ctx ++ ".export")%string;
  exec call_buildOptions;
  do flds <- get_fields;
  let exported := export_fields flds in
  let q := add_with (populate exported) (query ctx) in
  let modelQuery := select (obj_keys exported) (Model_query (Some q)) in
  let modelQuery :=
    if withTrash q then ignoreScopes ["softDeletes"] modelQuery else modelQuery in
  do data <- call_fetch modelQuery;
  do data <- processData q data;
  let ret_ := sheet exported data in
  let buffer : Workbook := [("Sheet1", ret_)] in
  let path :=
    tmpPath C (Some ("export-" ++ random_text C ++ ".xlsx")%string) in
  exec emit (EMkdir (tmpPath C None));     (* a failure here is swallowed *)
  exec emit (EWriteFile path buffer);
  exec lift (writeFileSync C path buffer);
  let name :=
    (match Model_label ctx with
     | Some l => if String.eqb l "" then Model_name ctx else l
     | None => Model_name ctx
     end ++ "-" ++ now_text C ++ ".xlsx")%string in
  exec emit (EAttachment path name);
  ret (RAttachment path name).

(** *** grid *)

(** [if (v.selectSize) v.selectSize = 5], on a descriptor. *)
Definition cap_selectSize (v : FieldDescriptor) : FieldDescriptor :=
  match selectSize v with
  | Some n =>
      if n =? 0 then v
      else {| listable := listable v; searchable := searchable v;
              editable := editable v; viewable := viewable v; role := role v;
              ref := ref v; label := label v; selectSize := Some 5 |}
  | None => v
  end.

(** [grid] picks the searchable descriptors and caps their select size in
    place: the descriptors are the ones [Model.fields] holds, so the cap
    shows in [Model.fields] too. *)
Definition grid (ctx : Ctx) : M Reply :=
  exec call_buildOptions;
  do flds <- get_fields;
  let capped :=
    List.map (fun kv => if bool_decide (searchable (snd kv) = Some true)
                        then (fst kv, cap_selectSize (snd kv)) else kv) flds in
  exec put_fields capped;
  let searchFields :=
    List.filter (fun kv => bool_decide (searchable (snd kv) = Some true))
                capped in
  ret (RGrid searchFields
             (List.map (fun kv => (fst kv, VNull)) searchFields)
             (omitBy (fun v _ => bool_decide (listable v = Some false)) capped)).

(** *** form and view *)

(** [!auth.user.isRole(role)]; a TypeError when there is no user or the
    user has no [isRole]. *)
Definition lacks_role (user : option Actor) (r : option string) : res bool :=
  match user with
  | Some u =>
      match isRole u with
      | Some holds => Ok (negb (holds r))
      | None => Throw TypeError
      end
  | None => Throw TypeError
  end.

Definition form (ctx : Ctx) : M Reply :=
  exec call_buildOptions;
  do flds <- get_fields;
  do editable_ <- lift (omitByM (fun v k =>
      if bool_decide (editable v = Some false) then Ok true
      else if bool_decide (k ∈ ["_id"; "created_at"; "updated_at"; "_actions"])
      then Ok true
      else lacks_role (auth_user ctx) (role v)) flds);
  do labels_ <- call_labels;
  ret (RForm labels_ editable_ (model ctx)).

Definition view (ctx : Ctx) : M Reply :=
  exec guard (auth_user ctx) (params_resource ctx ++ ".view")%string;
  exec call_buildOptions;
  do labels_ <- call_labels;
  do flds <- get_fields;
  ret (RForm labels_
         (omitBy (fun v k => bool_decide (viewable v = Some false)
                             || bool_decide (k ∈ ["_actions"])) flds)
         (model ctx)).

(** *** store, show, update, destroy, destroyAll *)

(** The predicate of the payload filter of [store]:
    [(v, k) => !auth.user.isRole(fields[k].role)].  A key that is not a
    declared field makes [fields[k]] undefined, and reading its [role] is a
    TypeError. *)
Definition store_omits (user : option Actor) (flds : Fields)
    (v : value) (k : string) : res bool :=
  match user with
  | Some u =>
      match obj_get k flds with
      | Some fd =>
          match isRole u with
          | Some holds => Ok (negb (holds (role fd)))
          | None => Throw TypeError
          end
      | None => Throw TypeError
      end
  | None => Throw TypeError
  end.

Definition store (ctx : Ctx) : M Reply :=
  exec guard (auth_user ctx) (params_resource ctx ++ ".create")%string;
  do flds <- get_fields;
  do data <- lift (omitByM (store_omits (auth_user ctx) flds) (request_all ctx));
  exec call_validate (model ctx) data;
  do merged <- call_merge (model ctx) data;
  do saved <- call_save merged;
  ret (RModel saved).

Definition show (ctx : Ctx) : M Reply := ret (RModel (model ctx)).

Definition update (ctx : Ctx) : M Reply :=
  exec guard (auth_user ctx) (params_resource ctx ++ ".update")%string;
  let data := request_all ctx in
  exec call_validate (model ctx) data;
  do merged <- call_merge (model ctx) data;
  do saved <- call_save merged;
  ret (RModel saved).

Definition destroy (ctx : Ctx) : M Reply :=
  exec guard (auth_user ctx) (params_resource ctx ++ ".delete")%string;
  exec call_delete (model ctx);
  ret RSuccess.

Definition destroyAll (ctx : Ctx) : M Reply :=
  exec guard (auth_user ctx) (params_resource ctx ++ ".delete_all")%string;
  exec call_query_delete (Model_query None);
  ret RSuccess.

(** *** options *)

(** [new RegExp(pattern, flags)]: the pattern is converted to a string; a
    pattern that does not compile is a SyntaxError. *)
Definition RegExp_new (pattern : value) (flags : string) : res value :=
  let src := match pattern with
             | VRegExp p _ => p
             | VUndefined => ""
             | other => String_ other
             end in
  if regexp_valid C src then Ok (VRegExp src flags) else Throw SyntaxError.

(** The body of the [forEach] over the pieces of [text]: one object
    [{ [v]: new RegExp(where[text], 'i') }] per piece, pushed in order. *)
Fixpoint push_orWhere (constraint : value) (pieces : list string)
  : res (list value) :=
  match pieces with
  | [] => Ok []
  | v :: rest =>
      match RegExp_new constraint "i" with
      | Throw e => Throw e
      | Ok re =>
          match push_orWhere constraint rest with
          | Throw e => Throw e
          | Ok more => Ok (VObj {[ v := re ]} :: more)
          end
      end
  end.

(** The rewriting of the parsed [where] by [options]. *)
Definition options_where (text : string) (cond : gmap string value)
  : res (gmap string value) :=
  match cond !! text with
  | Some constraint =>
      if truthy constraint then
        if includes " " text then
          match push_orWhere constraint (split " " text) with
          | Throw e => Throw e
          | Ok orWhere => Ok (<["$or" := VArr orWhere]> (delete text cond))
          end
        else Ok (<["$or" := VArr []]> cond)
      else Ok cond
  | None => Ok cond
  end.

Definition options (ctx : Ctx) : M Reply :=
  let inputs := request_inputs ctx in
  let text := default "name" (in_text inputs) in
  let value_ := default "_id" (in_value inputs) in
  let where_text := default "{}" (in_where inputs) in
  let limit_ := default (VNum 10) (in_limit inputs) in
  do cond <- lift (JSON_parse C where_text);
  do cond <- lift (options_where text cond);
  let lim := parseInt C limit_ in
  exec emit (EFetchOptions value_ text cond lim);
  do d <- get_db;
  do ret_ <- lift (fetchOptions C d value_ text cond lim);
  ret (ROptions ret_).

(** *** stat *)

(** [_.mapValues(_.keyBy(rows, '_id'), 'count')]: the counts keyed by the
    text of the group value, a later row replacing an earlier one with the
    same key. *)
Definition counts_by_id (rows : list (value * value)) : Obj value :=
  fold_left (fun o r => obj_set (String_ (fst r)) (snd r) o) rows [].

Definition stat (ctx : Ctx) : M Reply :=
  exec guard (auth_user ctx) (params_resource ctx ++ ".stat")%string;
  let group := default "os" (in_group (request_inputs ctx)) in
  exec emit (EGroupCount group);
  do d <- get_db;
  do rows <- lift (group_count C d group);
  let data := counts_by_id rows in
  ret (RStat (obj_keys data)
             ["#41B883"; "#E46651"; "#00D8FF"; "#DD1B16"]
             (obj_values data)).

(** The handlers that start with a guard, with the action each guards. *)
Definition guarded_handlers : list (string * (Ctx -> M Reply)) :=
  [ ("index", index); ("import", import); ("export", export); ("view", view);
    ("create", store); ("update", update); ("delete", destroy);
    ("delete_all", destroyAll); ("stat", stat) ].

End ResourceController.

Arguments guard user permission w : rename.

(** ** Sample collaborators and requests, for the concrete runs *)

Module Sample.

(** An engine over attribute maps: a query selects the rows that carry every
    constraint of its [where] (compared as text); no query object selects
    every row. *)
Definition selects (qb : QueryBuilder) (row : Row) : bool :=
  match qb_query qb with
  | Some q =>
      bool_decide
        (map_Forall (fun k v => String_ <$> (row !! k) = Some (String_ v))
                    (where_ q))
  | None => true
  end.

(** The JSON text of a one-property object with a string value. *)
Definition dquote : string := String (ascii_of_nat 34) "".
Definition json_pair (k v : string) : string :=
  ("{" ++ dquote ++ k ++ dquote ++ ":" ++ dquote ++ v ++ dquote ++ "}")%string.

(** The JSON parser on the three texts the runs below use. *)
Definition engine : Collaborators := {|
  restrict_field := None;
  fetch := fun d qb =>
    let rows := List.filter (selects qb) d in
    let rows := match qb_skip qb with
                | Some (Fin n) => drop (Z.to_nat n) rows
                | _ => rows
                end in
    Ok (match qb_limit qb with
        | Some n => take (Z.to_nat n) rows
        | None => rows
        end);
  count := fun d qb => Ok (Z.of_nat (List.length (List.filter (selects qb) d)));
  query_delete := fun d qb => Ok (List.filter (fun r => negb (selects qb r)) d);
  fetchAppends := fun row _ => Ok row;
  buildOptions := fun f => Ok f;
  labels := fun _ => Ok (VObj ∅);
  validate := fun _ _ => Ok tt;
  merge := fun row data => list_to_map data ∪ row;
  save := fun d row => Ok ((d ++ [row])%list, row);
  delete_ := fun d row => Ok d;
  fetchOptions := fun _ _ _ _ _ => Ok (VArr []);
  group_count := fun _ _ => Ok [];
  toJSON := fun row => VObj row;
  getValue := fun row k => match row with
                           | VObj o => default VUndefined (o !! k)
                           | _ => VUndefined
                           end;
  titleize := fun s => s;
  JSON_parse := fun s =>
    if String.eqb s "{}" then Ok ∅
    else if String.eqb s (json_pair "name" "abc")
         then Ok {[ "name" := VStr "abc" ]}
    else if String.eqb s (json_pair "name title" "abc")
         then Ok {[ "name title" := VStr "abc" ]}
    else Throw SyntaxError;
  regexp_valid := fun _ => true;
  parseInt := fun v => match v with VNum n => Fin n | _ => NaN end;
  tmpPath := fun o => match o with
                      | Some f => ("/tmp/" ++ f)%string
                      | None => "/tmp"
                      end;
  random_text := "0.5";
  now_text := "now";
  writeFileSync := fun _ _ => Ok tt
|}.

(** The same engine with a grouped count that answers five groups in seven
    rows: 'ios' twice, and the boolean true and the text 'true', which share
    a key. *)
Definition counting : Collaborators := {|
  restrict_field := restrict_field engine;
  fetch := fetch engine;
  count := count engine;
  query_delete := query_delete engine;
  fetchAppends := fetchAppends engine;
  buildOptions := buildOptions engine;
  labels := labels engine;
  validate := validate engine;
  merge := merge engine;
  save := save engine;
  delete_ := delete_ engine;
  fetchOptions := fetchOptions engine;
  group_count := fun _ _ =>
    Ok [(VStr "ios", VNum 3); (VStr "mac", VNum 1); (VBool true, VNum 6);
        (VStr "ios", VNum 5); (VStr "true", VNum 7); (VStr "linux", VNum 2);
        (VStr "bsd", VNum 4)];
  toJSON := toJSON engine;
  getValue := getValue engine;
  titleize := titleize engine;
  JSON_parse := JSON_parse engine;
  regexp_valid := regexp_valid engine;
  parseInt := parseInt engine;
  tmpPath := tmpPath engine;
  random_text := random_text engine;
  now_text := now_text engine;
  writeFileSync := writeFileSync engine
|}.

Definition plain : FieldDescriptor :=
  {| listable := None; searchable := None; editable := None; viewable := None;
     role := None; ref := None; label := None; selectSize := None |}.

(** A field that is not editable, and a field only role "admin" may write. *)
Definition locked : FieldDescriptor :=
  {| listable := None; searchable := None; editable := Some false;
     viewable := None; role := None; ref := None; label := None;
     selectSize := None |}.

Definition admin_only : FieldDescriptor :=
  {| listable := None; searchable := None; editable := None; viewable := None;
     role := Some "admin"; ref := None; label := None; selectSize := None |}.

Definition no_query : QuerySpec :=
  {| where_ := ∅; page := None; perPage := None; with_ := None;
     appends := None; withTrash := false |}.

Definition no_inputs : Inputs :=
  {| in_text := None; in_value := None; in_where := None; in_limit := None;
     in_group := None |}.

(** An entity with a labelled field, a field kept out of listings, the
    system field, and a reference to another entity. *)
Definition catalogue : Fields :=
  [ ("title",
     {| listable := None; searchable := None; editable := None;
        viewable := None; role := None; ref := None; label := Some "Title";
        selectSize := None |});
    ("secret",
     {| listable := Some false; searchable := None; editable := None;
        viewable := None; role := None; ref := None; label := None;
        selectSize := None |});
    ("_actions", plain);
    ("author_id",
     {| listable := None; searchable := None; editable := None;
        viewable := None; role := None; ref := Some "users.name";
        label := None; selectSize := None |}) ].

Definition two_books : list Row :=
  [ {[ "title" := VStr "A"; "author_id" := VStr "u1" ]};
    {[ "title" := VStr "B" ]} ].

(** An entity with two searchable fields, one with a select size, and a
    field that is neither searchable nor hidden. *)
Definition searchables : Fields :=
  [ ("name",
     {| listable := None; searchable := Some true; editable := None;
        viewable := None; role := None; ref := None; label := None;
        selectSize := Some 40 |});
    ("kind",
     {| listable := None; searchable := Some true; editable := None;
        viewable := None; role := None; ref := None; label := None;
        selectSize := None |});
    ("notes",
     {| listable := None; searchable := None; editable := None;
        viewable := None; role := None; ref := None; label := None;
        selectSize := Some 40 |}) ].

(** A filter on the status, and two records it tells apart. *)
Definition drafts_only : QuerySpec :=
  {| where_ := {[ "status" := VStr "draft" ]}; page := None; perPage := None;
     with_ := None; appends := None; withTrash := false |}.

Definition a_draft : Row := {[ "status" := VStr "draft" ]}.
Definition a_live_post : Row := {[ "status" := VStr "live" ]}.

(** An actor that may do nothing. *)
Definition nobody : Actor :=
  {| can := Some (fun _ => false); getPermissions := None;
     isRole := Some (fun _ => false); _id := VNum 7 |}.

(** An actor that may do everything and is not scoped to its own records. *)
Definition reader : Actor :=
  {| can := Some (fun _ => true); getPermissions := None;
     isRole := Some (fun _ => true); _id := VNum 1 |}.

(** The second page of twenty. *)
Definition page_two : QuerySpec :=
  {| where_ := ∅; page := Some 2; perPage := Some 20; with_ := None;
     appends := None; withTrash := false |}.

(** A query that asks for the soft-deleted records too. *)
Definition with_trash : QuerySpec :=
  {| where_ := ∅; page := Some 1; perPage := None; with_ := None;
     appends := None; withTrash := true |}.

(** A query whose client-supplied [where] names another owner and a status. *)
Definition others_drafts : QuerySpec :=
  {| where_ := {[ "user_ids" := VStr "99"; "status" := VStr "draft" ]};
     page := Some 1; perPage := None; with_ := None; appends := None;
     withTrash := false |}.

(** An actor that may do everything, scoped to its own records, with the
    role "staff" only. *)
Definition staff : Actor :=
  {| can := Some (fun _ => true); getPermissions := Some ["groups.@"];
     isRole := Some (fun r => match r with
                              | Some name => String.eqb name "staff"
                              | None => true
                              end);
     _id := VNum 7 |}.

Definition request (user : option Actor) (q : QuerySpec)
    (payload : Obj value) : Ctx :=
  {| params_resource := "posts"; auth_user := user; query := q;
     request_all := payload; request_inputs := no_inputs; model := ∅;
     Model_label := None; Model_name := "Post" |}.

(** An [options] request with the given [text] and [where] inputs. *)
Definition lookup_request (text where_text : option string) : Ctx :=
  {| params_resource := "posts"; auth_user := Some reader; query := no_query;
     request_all := [];
     request_inputs := {| in_text := text; in_value := None;
                          in_where := where_text; in_limit := None;
                          in_group := None |};
     model := ∅; Model_label := None; Model_name := "Post" |}.

Definition empty_world (flds : Fields) (rows : list Row) : World :=
  {| db := rows; fields := flds; log := [] |}.

End Sample.

(** ** Notions the properties are stated with *)

(** The actor is refused a permission: it exists, it exposes [can], and
    [can] answers false for the permission. *)
Definition denies (user : option Actor) (permission : string) : Prop :=
  ∃ u check, user = Some u ∧ can u = Some check ∧ check permission = false.

(** The permission string a handler guards: [`${params.resource}.<action>`]. *)
Definition permission_of (ctx : Ctx) (action : string) : string :=
  (params_resource ctx ++ "." ++ action)%string.

(** The 403 every refused handler fails with. *)
Definition Unauthorized : exn := HttpException "No privileges." 403.

(** An entry of the log made by resolving appends. *)
Definition is_appends_event (e : Event) : Prop :=
  ∃ row names, e = EFetchAppends row names.

(** What one fetched row becomes in [processData]: itself without appends,
    its resolution with them. *)
Definition processed (C : Collaborators) (q : QuerySpec) (r r' : Row) : Prop :=
  match appends q with
  | Some names => fetchAppends C r names = Ok r'
  | None => r' = r
  end.


(** A field [export] writes a column for: listable (its flag is not
    [false]) and not the system field '_actions'. *)
Definition exportable (kv : string * FieldDescriptor) : Prop :=
  listable (snd kv) ≠ Some false ∧ fst kv ≠ "_actions".

#[local] Instance exportable_dec kv : Decision (exportable kv).
Proof. unfold exportable. apply _. Defined.

(** The text of a column's header cell: the label when the field has a
    non-empty one, the titleized key otherwise. *)
Definition header_text (C : Collaborators) (k : string) (fd : FieldDescriptor)
    (cell : value) : Prop :=
  (∀ l, label fd = Some l -> l ≠ "" -> cell = VStr l)
  ∧ (label fd = None ∨ label fd = Some "" -> cell = VStr (titleize C k)).

(** The [text] input of an [options] request, 'name' by default. *)
Definition text_of (ctx : Ctx) : string :=
  default "name" (in_text (request_inputs ctx)).

(** The [where] input of an [options] request, '{}' by default. *)
Definition where_of (ctx : Ctx) : string :=
  default "{}" (in_where (request_inputs ctx)).

(** A field that refers to another entity: its [ref] is a non-empty text. *)
Definition referencing (kv : string * FieldDescriptor) : Prop :=
  match ref (snd kv) with
  | Some r => r ≠ ""
  | None => False
  end.

#[local] Instance referencing_dec kv : Decision (referencing kv).
Proof. unfold referencing. destruct (ref (snd kv)); apply _. Defined.

(** The [fetchAppends] calls [processData] makes for the rows of a query:
    one per row when the query has [appends], none otherwise. *)
Definition appends_calls (q : QuerySpec) (rows : list Row) : list Event :=
  match appends q with
  | Some names => List.map (fun r => EFetchAppends r names) rows
  | None => []
  end.

(** A field [grid] offers for searching: its [searchable] flag is set. *)
Definition searchable_field (kv : string * FieldDescriptor) : Prop :=
  searchable (snd kv) = Some true.

#[local] Instance searchable_field_dec kv : Decision (searchable_field kv).
Proof. unfold searchable_field. apply _. Defined.

(** [fd'] is [fd] with its select size capped: a select size that is set and
    not zero becomes 5, everything else is as in [fd]. *)
Definition capped (fd fd' : FieldDescriptor) : Prop :=
  listable fd' = listable fd ∧ searchable fd' = searchable fd
  ∧ editable fd' = editable fd ∧ viewable fd' = viewable fd
  ∧ role fd' = role fd ∧ ref fd' = ref fd ∧ label fd' = label fd
  ∧ (∀ n, selectSize fd = Some n -> n ≠ 0 -> selectSize fd' = Some 5)
  ∧ (selectSize fd = None ∨ selectSize fd = Some 0 ->
     selectSize fd' = selectSize fd).

(** The counts keyed by group, starting from the counts gathered so far:
    [counts_by_id] starts from none. *)
Definition counts_into (acc : Obj value) (rows : list (value * value))
  : Obj value :=
  fold_left (fun o r => obj_set (String_ (fst r)) (snd r) o) rows acc.

(** * Properties *)

(** The monad's operations and the collaborator calls, for unfolding a
    handler into the run it denotes. *)
Create HintDb run discriminated.
#[local] Hint Unfold bind ret throw lift emit get_db put_db get_fields
  put_fields : run.
#[local] Hint Unfold call_fetch call_count call_query_delete call_buildOptions
  call_labels call_validate call_merge call_save call_delete : run.

Ltac run := autounfold with run; simpl.

(** ** The JavaScript helpers on known values *)

Example split_two_fields : split " " "name title" = ["name"; "title"].
Proof. reflexivity. Qed.

Example split_keeps_empty_pieces : split " " "a  b " = ["a"; ""; "b"; ""].
Proof. reflexivity. Qed.

Example split_reference : split "." "users.name" = ["users"; "name"].
Proof. reflexivity. Qed.

Example split_no_separator : split " " "name" = ["name"].
Proof. reflexivity. Qed.

Example String_of_array :
  String_ (VArr [VNum 12; VNull; VStr "a"; VBool true]) = "12,,a,true".
Proof. vm_compute. reflexivity. Qed.

Example ceil_of_45_by_20 : Math_ceil_div 45 20 = Fin 3.
Proof. reflexivity. Qed.

Example ceil_of_40_by_20 : Math_ceil_div 40 20 = Fin 2.
Proof. reflexivity. Qed.

Example ceil_by_zero : Math_ceil_div 45 0 = Infinity ∧ Math_ceil_div 0 0 = NaN.
Proof. split; reflexivity. Qed.

Example offset_of_missing_page : num_mul (num_sub (to_number None) 1) 20 = NaN.
Proof. reflexivity. Qed.

Example keyBy_last_wins :
  counts_by_id [(VStr "ios", VNum 3); (VStr "mac", VNum 1); (VStr "ios", VNum 5)]
  = [("ios", VNum 5); ("mac", VNum 1)].
Proof. reflexivity. Qed.

(** ** The permission guard *)

Lemma guard_denied user permission w :
  denies user permission -> guard user permission w = (Throw Unauthorized, w).
Proof.
  intros (u & check & -> & Hcan & Hno).
  unfold guard. rewrite Hcan, Hno. reflexivity.
Qed.

Lemma guard_allowed user permission w :
  ¬ denies user permission -> guard user permission w = (Ok tt, w).
Proof.
  intros Hnot. unfold guard.
  destruct user as [u|]; [|reflexivity].
  destruct (can u) as [check|] eqn:Hcan; [|reflexivity].
  destruct (check permission) eqn:Hp; [reflexivity|].
  exfalso. apply Hnot. exists u, check. auto.
Qed.

Lemma denies_dec user permission :
  denies user permission ∨ ¬ denies user permission.
Proof.
  destruct user as [u|]; [|right; intros (? & ? & ? & _); discriminate].
  destruct (can u) as [check|] eqn:Hcan;
    [|right; intros (? & ? & [= <-] & ? & _); congruence].
  destruct (check permission) eqn:Hp.
  - right. intros (? & ? & [= <-] & ? & ?). congruence.
  - left. exists u, check. auto.
Qed.

(** C2. [guard] fails, and then with the 403 "No privileges." error, exactly
    when the actor exists, exposes [can], and [can] answers false for the
    permission; for every other actor (absent, without [can], or with [can]
    answering true) it returns normally.  Either way it touches nothing. *)
Theorem guard_fails_iff_denied (user : option Actor) (permission : string)
    (w : World) :
  (denies user permission ↔
     guard user permission w = (Throw Unauthorized, w))
  ∧ (¬ denies user permission ↔ guard user permission w = (Ok tt, w))
  ∧ (∀ e, fst (guard user permission w) = Throw e → e = Unauthorized)
  ∧ (user = None → guard user permission w = (Ok tt, w))
  ∧ (∀ u, user = Some u → can u = None →
          guard user permission w = (Ok tt, w))
  ∧ (∀ u check, user = Some u → can u = Some check →
          check permission = true → guard user permission w = (Ok tt, w)).
Proof.
  split; [|split; [|split; [|split; [|split]]]].
  - split; [apply guard_denied|].
    intros H. destruct (denies_dec user permission) as [|Hn]; [assumption|].
    rewrite (guard_allowed _ _ _ Hn) in H. discriminate.
  - split; [apply guard_allowed|].
    intros H Hd. rewrite (guard_denied _ _ _ Hd) in H. discriminate.
  - intros e H. destruct (denies_dec user permission) as [Hd|Hn].
    + rewrite (guard_denied _ _ _ Hd) in H. simpl in H. congruence.
    + rewrite (guard_allowed _ _ _ Hn) in H. discriminate.
  - intros ->. reflexivity.
  - intros u -> Hcan. unfold guard. rewrite Hcan. reflexivity.
  - intros u check -> Hcan Hp. unfold guard. rewrite Hcan, Hp. reflexivity.
Qed.

(** ** Refused actors *)

(** A computation that starts with a refused guard stops there. *)
Lemma refused_first {A} user permission (k : unit -> M A) w :
  denies user permission ->
  bind (guard user permission) k w = (Throw Unauthorized, w).
Proof.
  intros Hd. unfold bind. rewrite (guard_denied _ _ _ Hd). reflexivity.
Qed.

(** A computation that starts with a passed guard continues unchanged. *)
Lemma allowed_first {A} user permission (k : unit -> M A) w :
  ¬ denies user permission ->
  bind (guard user permission) k w = k tt w.
Proof.
  intros Hn. unfold bind. rewrite (guard_allowed _ _ _ Hn). reflexivity.
Qed.

(** C1. Every guarded handler (index, import, export, view, store, update,
    destroy, destroyAll, stat), invoked by an actor whose [can] answers false
    for the handler's permission, fails with the 403 error and leaves the
    world as it was: no collaborator was called (the log is unchanged), no
    record and no field descriptor was touched. *)
Theorem guarded_handlers_refuse_first (C : Collaborators) (action : string)
    (h : Ctx -> M Reply) (ctx : Ctx) (w : World) :
  (action, h) ∈ guarded_handlers C ->
  denies (auth_user ctx) (permission_of ctx action) ->
  h ctx w = (Throw Unauthorized, w).
Proof.
  intros Hin Hd. unfold guarded_handlers in Hin.
  repeat (apply elem_of_cons in Hin as [Hin|Hin];
          [injection Hin as -> ->; apply refused_first; exact Hd|]).
  apply elem_of_nil in Hin. contradiction.
Qed.

Lemma guarded_handlers_refuse_first_witness :
  denies (Some Sample.nobody) "posts.index" ∧
  index Sample.engine (Sample.request (Some Sample.nobody) Sample.no_query [])
        (Sample.empty_world [] [])
  = (Throw Unauthorized, Sample.empty_world [] []).
Proof.
  assert (Hd : denies (Some Sample.nobody) "posts.index").
  { exists Sample.nobody, (fun _ => false). repeat split; reflexivity. }
  split; [exact Hd|].
  apply (guarded_handlers_refuse_first Sample.engine "index").
  - unfold guarded_handlers. apply elem_of_cons. left. reflexivity.
  - exact Hd.
Defined.

(** ** The payload filter of store *)

(** Filtering keeps entries in their order. *)
Lemma filter_sublist_of {A} (f : A -> bool) (l : list A) :
  List.filter f l `sublist_of` l.
Proof.
  induction l as [|x l IH]; simpl; [constructor|].
  destruct (f x); constructor; exact IH.
Qed.

Section PayloadFilter.

Context (C : Collaborators).



(** With every key declared, the filter keeps the entries whose field's
    role the actor holds, in the payload's order. *)
Lemma omitByM_declared u holds flds (payload : Obj value) :
  isRole u = Some holds ->
  (∀ k v, (k, v) ∈ payload -> is_Some (obj_get k flds)) ->
  omitByM (store_omits (Some u) flds) payload
  = Ok (List.filter
          (fun kv => match obj_get (fst kv) flds with
                     | Some fd => holds (role fd)
                     | None => false
                     end) payload).
Proof.
  intros Hrole Hall. induction payload as [|[k0 v0] rest IH]; [reflexivity|].
  simpl. destruct (Hall k0 v0) as [fd Hfd]; [apply elem_of_cons; auto|].
  rewrite IH by (intros k v Hin; apply (Hall k v), elem_of_cons; auto).
  unfold store_omits. rewrite Hfd, Hrole.
  destruct (holds (role fd)); reflexivity.
Qed.

(** Past the guard, [store] filters the payload before anything else: a
    throwing filter ends the handler with the world untouched. *)
Lemma store_filter_throws ctx w e :
  ¬ denies (auth_user ctx) (permission_of ctx "create") ->
  omitByM (store_omits (auth_user ctx) (fields w)) (request_all ctx) = Throw e ->
  store C ctx w = (Throw e, w).
Proof.
  intros Hn He. unfold store. rewrite allowed_first by exact Hn.
  run. rewrite He. reflexivity.
Qed.

(** Past the guard and the filter, the validator is the first collaborator
    called, on the filtered payload; when it accepts, the same payload is
    merged and the merged instance saved. *)
Lemma store_validates ctx w data :
  ¬ denies (auth_user ctx) (permission_of ctx "create") ->
  omitByM (store_omits (auth_user ctx) (fields w)) (request_all ctx) = Ok data ->
  ∃ rest,
    log (snd (store C ctx w)) = log w ++ EValidate data :: rest
    ∧ (rest = [] ∨ rest = [EMerge data; ESave (merge C (model ctx) data)])
    ∧ (validate C (model ctx) data = Ok tt ->
       rest = [EMerge data; ESave (merge C (model ctx) data)]).
Proof.
  intros Hn Hd. unfold store. rewrite allowed_first by exact Hn.
  run. rewrite Hd. simpl.
  destruct (validate C (model ctx) data) as [[]|e]; simpl.
  - exists [EMerge data; ESave (merge C (model ctx) data)].
    split; [|split; [right; reflexivity|intros _; reflexivity]].
    destruct (save C (db w) (merge C (model ctx) data)) as [[d' saved]|e];
      simpl; rewrite <- !app_assoc; reflexivity.
  - exists []. split; [reflexivity|split; [left; reflexivity|discriminate]].
Qed.

End PayloadFilter.

(** ** store and update *)

Lemma staff_allowed permission : ¬ denies (Some Sample.staff) permission.
Proof. intros (u & check & [= <-] & [= <-] & H). discriminate. Qed.



(** C4, as the code has it. Past its guard, for an actor that exposes
    [isRole] and a payload of declared fields, [store] hands the validator
    exactly the payload entries whose field's role the actor holds, and when
    the validator accepts, merges that same filtered payload and saves: a
    field whose role the actor lacks is never validated, merged or saved.
    Which entries stay is decided by the role alone; the [editable] flag
    plays no part. *)
Theorem store_filters_payload_by_role (C : Collaborators) (ctx : Ctx)
    (w : World) (u : Actor) (holds : option string -> bool) :
  ¬ denies (auth_user ctx) (permission_of ctx "create") ->
  auth_user ctx = Some u -> isRole u = Some holds ->
  (∀ k v, (k, v) ∈ request_all ctx -> is_Some (obj_get k (fields w))) ->
  ∃ data rest,
    log (snd (store C ctx w)) = log w ++ EValidate data :: rest
    ∧ (∀ k v, (k, v) ∈ data ↔
              (k, v) ∈ request_all ctx
              ∧ ∃ fd, obj_get k (fields w) = Some fd ∧ holds (role fd) = true)
    ∧ data `sublist_of` request_all ctx
    ∧ (rest = [] ∨ rest = [EMerge data; ESave (merge C (model ctx) data)])
    ∧ (validate C (model ctx) data = Ok tt ->
       rest = [EMerge data; ESave (merge C (model ctx) data)]).
Proof.
  intros Hn Hu Hrole Hall.
  pose proof (omitByM_declared u holds (fields w) (request_all ctx) Hrole Hall)
    as Hdata.
  rewrite <- Hu in Hdata.
  destruct (store_validates C ctx w _ Hn Hdata) as (rest & Hlog & Hrest & Hok).
  eexists _, rest. split; [exact Hlog|]. split; [|split; [|split]].
  - intros k v. rewrite list_elem_of_In, filter_In, <- list_elem_of_In. simpl.
    split.
    + intros [Hin Hf]. split; [exact Hin|].
      destruct (obj_get k (fields w)) as [fd|]; [eauto|discriminate].
    + intros [Hin (fd & Hfd & Hh)]. split; [exact Hin|]. rewrite Hfd. exact Hh.
  - apply filter_sublist_of.
  - exact Hrest.
  - exact Hok.
Qed.

Lemma store_filters_payload_by_role_witness :
  ∃ data rest,
    log (snd (store Sample.engine
                (Sample.request (Some Sample.staff) Sample.no_query
                   [("title", VStr "x"); ("salary", VNum 9)])
                (Sample.empty_world
                   [("title", Sample.locked); ("salary", Sample.admin_only)] [])))
    = [] ++ EValidate data :: rest
    ∧ (∀ k v, (k, v) ∈ data ↔
              (k, v) ∈ [("title", VStr "x"); ("salary", VNum 9)]
              ∧ ∃ fd, obj_get k [("title", Sample.locked);
                                 ("salary", Sample.admin_only)] = Some fd
                      ∧ (match role fd with
                         | Some name => String.eqb name "staff"
                         | None => true
                         end) = true)
    ∧ data `sublist_of` [("title", VStr "x"); ("salary", VNum 9)]
    ∧ (rest = [] ∨
       rest = [EMerge data; ESave (merge Sample.engine ∅ data)])
    ∧ (validate Sample.engine ∅ data = Ok tt ->
       rest = [EMerge data; ESave (merge Sample.engine ∅ data)]).
Proof.
  apply (store_filters_payload_by_role Sample.engine
           (Sample.request (Some Sample.staff) Sample.no_query
              [("title", VStr "x"); ("salary", VNum 9)])
           (Sample.empty_world
              [("title", Sample.locked); ("salary", Sample.admin_only)] [])
           Sample.staff
           (fun r => match r with
                     | Some name => String.eqb name "staff"
                     | None => true
                     end)).
  - apply staff_allowed.
  - reflexivity.
  - reflexivity.
  - intros k v Hin.
    repeat (apply elem_of_cons in Hin as [Hin|Hin];
            [injection Hin as -> ->; eexists; reflexivity|]).
    apply elem_of_nil in Hin. contradiction.
Defined.

(** C4 as stated fails: a field whose descriptor has [editable: false]
    reaches the validator (and is merged and saved), in [store] and in
    [update] alike. *)
Lemma store_validates_non_editable_field :
  editable <$> obj_get "title" [("title", Sample.locked)] = Some (Some false)
  ∧ log (snd (store Sample.engine
                (Sample.request (Some Sample.staff) Sample.no_query
                   [("title", VStr "x")])
                (Sample.empty_world [("title", Sample.locked)] [])))
    = [EValidate [("title", VStr "x")]; EMerge [("title", VStr "x")];
       ESave {[ "title" := VStr "x" ]}]
  ∧ log (snd (update Sample.engine
                (Sample.request (Some Sample.staff) Sample.no_query
                   [("title", VStr "x")])
                (Sample.empty_world [("title", Sample.locked)] [])))
    = [EValidate [("title", VStr "x")]; EMerge [("title", VStr "x")];
       ESave {[ "title" := VStr "x" ]}].
Proof. repeat split; vm_compute; reflexivity. Qed.

(** [update] hands the validator the payload as submitted: past the guard
    its first collaborator call validates [request.all()] itself. *)
Lemma update_validates_raw_payload (C : Collaborators) (ctx : Ctx) (w : World) :
  ¬ denies (auth_user ctx) (permission_of ctx "update") ->
  ∃ rest, log (snd (update C ctx w))
          = log w ++ EValidate (request_all ctx) :: rest.
Proof.
  intros Hn. unfold update. rewrite allowed_first by exact Hn.
  run.
  destruct (validate C (model ctx) (request_all ctx)) as [[]|e]; simpl.
  - exists [EMerge (request_all ctx);
            ESave (merge C (model ctx) (request_all ctx))].
    destruct (save C (db w) (merge C (model ctx) (request_all ctx)))
      as [[d' saved]|e]; simpl; rewrite <- !app_assoc; reflexivity.
  - exists []. reflexivity.
Qed.

(** C5 fails on the code: for an actor without the role "admin" and a
    payload that sets an admin-only field, [store] validates, merges and
    saves the payload without the field, while [update] validates, merges
    and saves the field. *)
Lemma update_skips_role_filter :
  log (snd (store Sample.engine
              (Sample.request (Some Sample.staff) Sample.no_query
                 [("salary", VNum 9)])
              (Sample.empty_world [("salary", Sample.admin_only)] [])))
  = [EValidate []; EMerge []; ESave ∅]
  ∧ log (snd (update Sample.engine
                (Sample.request (Some Sample.staff) Sample.no_query
                   [("salary", VNum 9)])
                (Sample.empty_world [("salary", Sample.admin_only)] [])))
    = [EValidate [("salary", VNum 9)]; EMerge [("salary", VNum 9)];
       ESave {[ "salary" := VNum 9 ]}].
Proof. split; vm_compute; reflexivity. Qed.

(** ** processData *)

Section Appends.

Context (C : Collaborators).

(** Resolving the appends of the rows only adds [fetchAppends] calls to the
    log, leaves records and descriptors alone, and, when it succeeds, answers
    with one resolved row per fetched row, in the same order. *)
Lemma fetchAppends_each_spec names rows w :
  ∃ evs,
    log (snd (fetchAppends_each C names rows w)) = log w ++ evs
    ∧ Forall is_appends_event evs
    ∧ db (snd (fetchAppends_each C names rows w)) = db w
    ∧ fields (snd (fetchAppends_each C names rows w)) = fields w
    ∧ (∀ rows', fst (fetchAppends_each C names rows w) = Ok rows' ->
         Forall2 (fun r r' => fetchAppends C r names = Ok r') rows rows').
Proof.
  revert w. induction rows as [|row rest IH]; intros w.
  - exists []. simpl. rewrite app_nil_r. repeat split; auto.
    intros rows' [= <-]. constructor.
  - simpl. unfold bind at 1. unfold call_fetchAppends, bind, emit, lift. simpl.
    destruct (fetchAppends C row names) as [row'|e] eqn:Hrow.
    + set (w1 := {| db := db w; fields := fields w;
                    log := log w ++ [EFetchAppends row names] |}).
      destruct (IH w1) as (evs & Hlog & Hall & Hdb & Hf & Hres).
      destruct (fetchAppends_each C names rest w1) as [[rest'|e] w2] eqn:Hrest;
        simpl in *.
      * exists (EFetchAppends row names :: evs).
        rewrite Hlog, <- app_assoc. repeat split; auto.
        -- constructor; [eexists _, _; reflexivity|exact Hall].
        -- intros rows' [= <-]. constructor; [exact Hrow|]. apply Hres.
           reflexivity.
      * exists (EFetchAppends row names :: evs).
        rewrite Hlog, <- app_assoc. repeat split; auto.
        -- constructor; [eexists _, _; reflexivity|exact Hall].
        -- intros rows'. discriminate.
    + exists [EFetchAppends row names]. simpl. repeat split; auto.
      * constructor; [eexists _, _; reflexivity|constructor].
      * intros rows'. discriminate.
Qed.

Lemma processData_spec q rows w :
  ∃ evs,
    log (snd (processData C q rows w)) = log w ++ evs
    ∧ Forall is_appends_event evs
    ∧ db (snd (processData C q rows w)) = db w
    ∧ fields (snd (processData C q rows w)) = fields w
    ∧ (∀ rows', fst (processData C q rows w) = Ok rows' ->
         Forall2 (processed C q) rows rows').
Proof.
  unfold processData, processed. destruct (appends q) as [names|].
  - apply fetchAppends_each_spec.
  - exists []. simpl. rewrite app_nil_r. repeat split; auto.
    intros rows' [= <-]. apply Forall2_same_length_lookup. split; [reflexivity|].
    intros i x y Hx Hy. congruence.
Qed.

End Appends.

(** ** index *)

Section Index.

Context (C : Collaborators).

Lemma scope_query_page user q : page (scope_query C user q) = page q.
Proof.
  unfold scope_query. destruct (getPermissions user); [|reflexivity].
  case_bool_decide; reflexivity.
Qed.

Lemma scope_query_perPage user q : perPage (scope_query C user q) = perPage q.
Proof.
  unfold scope_query. destruct (getPermissions user); [|reflexivity].
  case_bool_decide; reflexivity.
Qed.

Lemma scope_query_appends user q : appends (scope_query C user q) = appends q.
Proof.
  unfold scope_query. destruct (getPermissions user); [|reflexivity].
  case_bool_decide; reflexivity.
Qed.

(** Past the guard, with a user: the first collaborator call of [index] is
    the fetch of the paginated query over the scoped query object; the only
    calls after it are the count over the same query object and the
    resolution of appends; and the reply, when there is one, carries the
    count and the processed rows. *)
Lemma index_run ctx w user :
  auth_user ctx = Some user ->
  ¬ denies (auth_user ctx) (permission_of ctx "index") ->
  ∃ qb evs,
    log (snd (index C ctx w)) = log w ++ EFetch qb :: evs
    ∧ qb_query qb = Some (scope_query C user (query ctx))
    ∧ qb_skip qb
      = Some (num_mul (num_sub (to_number (page (query ctx))) 1)
                      (default 20 (perPage (query ctx))))
    ∧ qb_limit qb = Some (default 20 (perPage (query ctx)))
    ∧ Forall (fun e =>
                e = ECount (Model_query (Some (scope_query C user (query ctx))))
                ∨ is_appends_event e) evs
    ∧ (∀ reply, fst (index C ctx w) = Ok reply ->
         ∃ rows total data,
           fetch C (db w) qb = Ok rows
           ∧ count C (db w) (Model_query (Some (scope_query C user (query ctx))))
             = Ok total
           ∧ Forall2 (processed C (scope_query C user (query ctx))) rows data
           ∧ reply = RPage (page (query ctx))
                           (default 20 (perPage (query ctx))) total
                           (Math_ceil_div total
                              (default 20 (perPage (query ctx))))
                           data)
    ∧ (∀ rows total,
         fetch C (db w) qb = Ok rows ->
         count C (db w) (Model_query (Some (scope_query C user (query ctx))))
           = Ok total ->
         appends (query ctx) = None ->
         fst (index C ctx w)
         = Ok (RPage (page (query ctx)) (default 20 (perPage (query ctx)))
                     total
                     (Math_ceil_div total (default 20 (perPage (query ctx))))
                     rows)).
Proof.
  intros Hu Hn. unfold index. rewrite allowed_first by exact Hn.
  unfold the_user. rewrite Hu.
  run. rewrite !scope_query_page, !scope_query_perPage.
  set (q := scope_query C user (query ctx)).
  set (pp := default 20 (perPage (query ctx))).
  match goal with |- context [fetch C (db w) ?m] => set (mq := m) end.
  assert (Hq : qb_query mq = Some q)
    by (subst mq; destruct (withTrash q); reflexivity).
  assert (Hs : qb_skip mq
               = Some (num_mul (num_sub (to_number (page (query ctx))) 1) pp))
    by (subst mq; destruct (withTrash q); reflexivity).
  assert (Hl : qb_limit mq = Some pp)
    by (subst mq; destruct (withTrash q); reflexivity).
  exists mq.
  destruct (fetch C (db w) mq) as [rows|e] eqn:Hfetch; simpl.
  2:{ exists []. repeat split; auto. all: intros; discriminate. }
  destruct (count C (db w) (Model_query (Some q))) as [total|e] eqn:Hcount; simpl.
  2:{ exists [ECount (Model_query (Some q))]. rewrite <- app_assoc.
      repeat split; auto. all: intros; discriminate. }
  match goal with |- context [processData C q rows ?x] => set (w2 := x) end.
  destruct (processData_spec C q rows w2) as (evs & Hlog & Hev & _ & _ & Hres).
  exists (ECount (Model_query (Some q)) :: evs).
  split; [|split; [exact Hq|split; [exact Hs|split; [exact Hl|split; [|split]]]]].
  - destruct (processData C q rows w2) as [[data|e] w3]; simpl in *;
      rewrite Hlog; subst w2; simpl; rewrite <- !app_assoc; reflexivity.
  - constructor; [left; reflexivity|].
    eapply Forall_impl; [exact Hev|]. intros e He. right. exact He.
  - intros reply Hreply.
    destruct (processData C q rows w2) as [[data|e] w3]; simpl in *;
      [|discriminate].
    injection Hreply as <-. exists rows, total, data.
    repeat split; auto.
  - intros rows0 total0 [= <-] [= <-] Hno.
    unfold processData. subst q. rewrite scope_query_appends, Hno.
    reflexivity.
Qed.

End Index.





Lemma reader_allowed permission : ¬ denies (Some Sample.reader) permission.
Proof. intros (u & check & [= <-] & [= <-] & H). discriminate. Qed.


(** The page of the specification's example: page 2 of 45 records, twenty a
    page, is fetched at offset 20 with limit 20, and its [lastPage] is 3. *)
Lemma index_page_two_of_45 :
  index Sample.engine
    (Sample.request (Some Sample.reader) Sample.page_two [])
    (Sample.empty_world [] (replicate 45 ∅))
  = (Ok (RPage (Some 2) 20 45 (Fin 3) (replicate 20 ∅)),
     {| db := replicate 45 ∅; fields := [];
        log := [EFetch {| qb_query := Some Sample.page_two;
                          qb_select := Some [];
                          qb_skip := Some (Fin 20);
                          qb_limit := Some 20;
                          qb_ignoreScopes := [] |};
                ECount (Model_query (Some Sample.page_two))] |}).
Proof. vm_compute. reflexivity. Qed.

(** ** destroyAll *)

(** C6, as the code has it. [destroyAll] reads no filter: past its guard its
    one collaborator call is the delete over the unfiltered query
    [Model.query()], whatever query the request carries; when the engine
    answers, the handler returns the success acknowledgment and the records
    are those the engine left, and when the engine fails, its exception
    reaches the caller and the records stay.  With an engine that deletes
    the records its query selects and whose unfiltered query selects every
    record, no record is left. *)
Theorem destroyAll_deletes_unfiltered (C : Collaborators) (ctx : Ctx)
    (w : World) :
  ¬ denies (auth_user ctx) (permission_of ctx "delete_all") ->
  log (snd (destroyAll C ctx w)) = log w ++ [EQueryDelete (Model_query None)]
  ∧ (∀ left_,
       query_delete C (db w) (Model_query None) = Ok left_ ->
       destroyAll C ctx w
       = (Ok RSuccess,
          {| db := left_; fields := fields w;
             log := log w ++ [EQueryDelete (Model_query None)] |}))
  ∧ (∀ e,
       query_delete C (db w) (Model_query None) = Throw e ->
       fst (destroyAll C ctx w) = Throw e
       ∧ db (snd (destroyAll C ctx w)) = db w)
  ∧ (∀ selected : QueryBuilder -> Row -> bool,
       (∀ d qb, query_delete C d qb
                = Ok (List.filter (fun r => negb (selected qb r)) d)) ->
       (∀ r, selected (Model_query None) r = true) ->
       destroyAll C ctx w
       = (Ok RSuccess,
          {| db := []; fields := fields w;
             log := log w ++ [EQueryDelete (Model_query None)] |})).
Proof.
  intros Hn. unfold destroyAll. rewrite allowed_first by exact Hn.
  run.
  split; [|split; [|split]].
  - destruct (query_delete C (db w) (Model_query None)); reflexivity.
  - intros left_ ->. reflexivity.
  - intros e ->. split; reflexivity.
  - intros selected Hdel Hall. rewrite Hdel.
    replace (List.filter (fun r => negb (selected (Model_query None) r)) (db w))
      with (@nil Row); [reflexivity|].
    induction (db w) as [|r d IH]; [reflexivity|].
    simpl. rewrite Hall. exact IH.
Qed.

Lemma destroyAll_deletes_unfiltered_witness :
  log (snd (destroyAll Sample.engine
              (Sample.request (Some Sample.reader) Sample.drafts_only [])
              (Sample.empty_world [] [Sample.a_draft; Sample.a_live_post])))
  = [EQueryDelete (Model_query None)]
  ∧ destroyAll Sample.engine
      (Sample.request (Some Sample.reader) Sample.drafts_only [])
      (Sample.empty_world [] [Sample.a_draft; Sample.a_live_post])
    = (Ok RSuccess,
       {| db := []; fields := [];
          log := [EQueryDelete (Model_query None)] |}).
Proof.
  destruct (destroyAll_deletes_unfiltered Sample.engine
              (Sample.request (Some Sample.reader) Sample.drafts_only [])
              (Sample.empty_world [] [Sample.a_draft; Sample.a_live_post])
              (reader_allowed _))
    as (Hlog & _ & _ & Hall).
  split; [exact Hlog|].
  apply (Hall Sample.selects).
  - intros d qb. reflexivity.
  - intros r. reflexivity.
Defined.

(** C6 as stated fails: with the filter [status = draft] in the request and
    a draft and a live post stored, the records matching the filter are the
    draft alone, yet [destroyAll] deletes both. *)
Lemma destroyAll_ignores_filter :
  List.filter (Sample.selects (Model_query (Some Sample.drafts_only)))
              [Sample.a_draft; Sample.a_live_post]
  = [Sample.a_draft]
  ∧ List.filter (fun r => negb (Sample.selects
                                  (Model_query (Some Sample.drafts_only)) r))
                [Sample.a_draft; Sample.a_live_post]
    = [Sample.a_live_post]
  ∧ destroyAll Sample.engine
      (Sample.request (Some Sample.reader) Sample.drafts_only [])
      (Sample.empty_world [] [Sample.a_draft; Sample.a_live_post])
    = (Ok RSuccess,
       {| db := []; fields := [];
          log := [EQueryDelete (Model_query None)] |}).
Proof. repeat split; vm_compute; reflexivity. Qed.

(** ** export *)

Section ExportSheet.

Context (C : Collaborators).

Lemma export_fields_exportable flds :
  export_fields flds = filter exportable flds.
Proof.
  unfold export_fields, omitBy.
  induction flds as [|[k fd] rest IH]; [reflexivity|].
  rewrite filter_cons. cbn [List.filter fst snd]. rewrite IH.
  destruct (decide (exportable (k, fd))) as [He|He].
  - destruct He as [Hl Hk]. simpl in Hl, Hk.
    rewrite bool_decide_eq_false_2 by exact Hl.
    rewrite bool_decide_eq_false_2; [reflexivity|].
    intros Hin. apply list_elem_of_singleton in Hin. contradiction.
  - destruct (bool_decide (listable fd = Some false)) eqn:Hl; [reflexivity|].
    destruct (bool_decide (k ∈ ["_actions"])) eqn:Hk; [reflexivity|].
    exfalso. apply He. split; simpl.
    + apply bool_decide_eq_false in Hl. exact Hl.
    + apply bool_decide_eq_false in Hk. intros ->. apply Hk.
      apply list_elem_of_singleton. reflexivity.
Qed.

Lemma lookup_List_map {A B} (f : A -> B) (l : list A) (i : nat) :
  List.map f l !! i = f <$> (l !! i).
Proof.
  revert i. induction l as [|x l IH]; intros [|i]; simpl; auto.
Qed.

(** Processing succeeds with the rows the oracle resolves. *)
Lemma fetchAppends_each_returns names rows data w :
  Forall2 (fun r r' => fetchAppends C r names = Ok r') rows data ->
  fst (fetchAppends_each C names rows w) = Ok data.
Proof.
  intros H. revert w. induction H as [|r r' rows data Hr _ IH]; intros w.
  - reflexivity.
  - simpl. unfold bind at 1. unfold call_fetchAppends, bind, emit, lift. simpl.
    rewrite Hr.
    match goal with |- context [fetchAppends_each C names rows ?x] =>
      specialize (IH x); destruct (fetchAppends_each C names rows x) as [[?|?] ?]
    end; simpl in *; congruence.
Qed.

Lemma processData_returns q rows data w :
  Forall2 (processed C q) rows data ->
  fst (processData C q rows w) = Ok data.
Proof.
  unfold processData, processed. destruct (appends q) as [names|].
  - apply fetchAppends_each_returns.
  - intros H. simpl. f_equal.
    induction H as [|r r' rows data Hr _ IH]; [reflexivity|].
    rewrite Hr, IH. reflexivity.
Qed.

(** The header row and the lines of the sheet, cell by cell. *)
Lemma sheet_layout flds (data : list Row) :
  ∃ header lines,
    sheet C (export_fields flds) data = header :: lines
    ∧ List.length header = List.length (filter exportable flds)
    ∧ (∀ i k fd, filter exportable flds !! i = Some (k, fd) ->
         ∃ cell, header !! i = Some cell ∧ header_text C k fd cell)
    ∧ List.length lines = List.length data
    ∧ (∀ i row, data !! i = Some row ->
         lines !! i
         = Some (List.map (fun kv => getValue C (toJSON C row) (fst kv))
                          (filter exportable flds))).
Proof.
  unfold sheet. rewrite export_fields_exportable.
  eexists _, _. split; [reflexivity|]. split; [|split; [|split]].
  - apply List.length_map.
  - intros i k fd Hi. rewrite lookup_List_map, Hi. simpl.
    eexists. split; [reflexivity|]. unfold header_text, header_cell. simpl.
    split.
    + intros l -> Hl. apply String.eqb_neq in Hl. rewrite Hl. reflexivity.
    + intros [->| ->]; reflexivity.
  - apply List.length_map.
  - intros i row Hi. rewrite lookup_List_map, Hi. reflexivity.
Qed.

(** Past the guard and [buildOptions]: the one query [export] fetches
    carries no offset and no limit and selects the exported fields; the sheet
    written is the sheet of the processed rows; the attachment is returned
    when the file is written. *)
Lemma export_run ctx w flds :
  ¬ denies (auth_user ctx) (permission_of ctx "export") ->
  buildOptions C (fields w) = Ok flds ->
  ∃ qb,
    qb_skip qb = None ∧ qb_limit qb = None
    ∧ qb_select qb = Some (obj_keys (export_fields flds))
    ∧ (∃ evs,
         log (snd (export C ctx w))
         = log w ++ EBuildOptions :: EFetch qb :: evs
         ∧ Forall (fun e => ∀ qb', e ≠ EFetch qb') evs)
    ∧ (∀ rows data,
         fetch C (db w) qb = Ok rows ->
         Forall2 (processed C (query ctx)) rows data ->
         ∃ path name,
           EWriteFile path [("Sheet1", sheet C (export_fields flds) data)]
             ∈ log (snd (export C ctx w))
           ∧ (writeFileSync C path
                [("Sheet1", sheet C (export_fields flds) data)] = Ok tt ->
              fst (export C ctx w) = Ok (RAttachment path name))).
Proof.
  intros Hn Hb. unfold export. rewrite allowed_first by exact Hn.
  run. rewrite Hb. simpl.
  set (q := add_with (populate (export_fields flds)) (query ctx)).
  match goal with |- context [fetch C (db w) ?m] => set (mq := m) end.
  exists mq.
  split; [subst mq; destruct (withTrash (query ctx)); reflexivity|].
  split; [subst mq; destruct (withTrash (query ctx)); reflexivity|].
  split; [subst mq; destruct (withTrash (query ctx)); reflexivity|].
  destruct (fetch C (db w) mq) as [rows|e] eqn:Hfetch; simpl.
  2:{ split; [|intros; discriminate].
      exists []. rewrite <- app_assoc. split; [reflexivity|constructor]. }
  match goal with |- context [processData C q rows ?x] => set (w2 := x) end.
  destruct (processData_spec C q rows w2) as (evs & Hlog & Hev & _ & _ & _).
  assert (Hnofetch : Forall (fun e => ∀ qb', e ≠ EFetch qb') evs).
  { eapply Forall_impl; [exact Hev|]. intros e (? & ? & ->) qb'. discriminate. }
  split.
  - destruct (processData C q rows w2) as [[data|e] w3]; simpl in *.
    + set (path := tmpPath C (Some ("export-" ++ random_text C ++ ".xlsx")%string)).
      destruct (writeFileSync C path _); simpl; rewrite Hlog; subst w2; simpl;
        rewrite <- !app_assoc; simpl; eexists; (split; [reflexivity|]);
        apply Forall_app; (split; [exact Hnofetch|]);
        repeat constructor; discriminate.
    + exists evs. rewrite Hlog. subst w2. simpl. rewrite <- !app_assoc.
      split; [reflexivity|exact Hnofetch].
  - intros rows0 data [= <-] Hdata.
    pose proof (processData_returns q rows data w2 Hdata) as Hret.
    destruct (processData C q rows w2) as [[data'|e] w3]; simpl in *;
      [|discriminate].
    injection Hret as ->.
    eexists _, _. split.
    + destruct (writeFileSync C _ _); simpl;
        rewrite !elem_of_app, !list_elem_of_singleton; auto.
    + intros ->. reflexivity.
Qed.

End ExportSheet.

(** C9. Past the guard and [buildOptions]: the one query [export] fetches
    has no offset and no limit; and when that fetch answers, the workbook
    written has one sheet whose first row has one cell per field that is
    listable and not '_actions' (the label, or the titleized key when the
    field has no label), in the fields' order, followed by one line per
    fetched record, in the order fetched, each line holding the value of
    every such field for the processed record; the attachment is returned
    once the file is written. *)
Theorem export_unpaginated_sheet (C : Collaborators) (ctx : Ctx) (w : World)
    (flds : Fields) :
  ¬ denies (auth_user ctx) (permission_of ctx "export") ->
  buildOptions C (fields w) = Ok flds ->
  ∃ qb,
    qb_skip qb = None ∧ qb_limit qb = None
    ∧ (∃ evs,
         log (snd (export C ctx w))
         = log w ++ EBuildOptions :: EFetch qb :: evs
         ∧ Forall (fun e => ∀ qb', e ≠ EFetch qb') evs)
    ∧ (∀ rows data,
         fetch C (db w) qb = Ok rows ->
         Forall2 (processed C (query ctx)) rows data ->
         ∃ path header lines,
           EWriteFile path [("Sheet1", header :: lines)]
             ∈ log (snd (export C ctx w))
           ∧ List.length header = List.length (filter exportable flds)
           ∧ (∀ i k fd, filter exportable flds !! i = Some (k, fd) ->
                ∃ cell, header !! i = Some cell ∧ header_text C k fd cell)
           ∧ List.length lines = List.length rows
           ∧ (∀ i row, rows !! i = Some row ->
                ∃ row', data !! i = Some row'
                        ∧ processed C (query ctx) row row'
                        ∧ lines !! i
                          = Some (List.map
                                    (fun kv => getValue C (toJSON C row') (fst kv))
                                    (filter exportable flds)))
           ∧ (writeFileSync C path [("Sheet1", header :: lines)] = Ok tt ->
              ∃ name, fst (export C ctx w) = Ok (RAttachment path name))).
Proof.
  intros Hn Hb.
  destruct (export_run C ctx w flds Hn Hb)
    as (qb & Hskip & Hlimit & _ & Hlog & Hsheet).
  exists qb. split; [exact Hskip|]. split; [exact Hlimit|].
  split; [exact Hlog|].
  intros rows data Hf Hdata.
  destruct (Hsheet rows data Hf Hdata) as (path & name & Hin & Hret).
  destruct (sheet_layout C flds data)
    as (header & lines & Heq & Hh & Hcells & Hl & Hlines).
  rewrite Heq in Hin, Hret.
  exists path, header, lines. split; [exact Hin|]. split; [exact Hh|].
  split; [exact Hcells|]. split; [|split].
  - rewrite Hl. symmetry. exact (Forall2_length _ _ _ Hdata).
  - intros i row Hi.
    destruct (Forall2_lookup_l _ _ _ _ _ Hdata Hi) as (row' & Hi' & Hp).
    exists row'. split; [exact Hi'|]. split; [exact Hp|].
    exact (Hlines i row' Hi').
  - intros Hw. exists name. exact (Hret Hw).
Qed.

Lemma export_unpaginated_sheet_witness :
  ∃ qb path header lines,
    qb_skip qb = None ∧ qb_limit qb = None
    ∧ EFetch qb
        ∈ log (snd (export Sample.engine
                      (Sample.request (Some Sample.reader) Sample.page_two [])
                      (Sample.empty_world Sample.catalogue Sample.two_books)))
    ∧ EWriteFile path [("Sheet1", header :: lines)]
        ∈ log (snd (export Sample.engine
                      (Sample.request (Some Sample.reader) Sample.page_two [])
                      (Sample.empty_world Sample.catalogue Sample.two_books)))
    ∧ List.length header = 2%nat
    ∧ List.length lines = 2%nat.
Proof.
  destruct (export_unpaginated_sheet Sample.engine
              (Sample.request (Some Sample.reader) Sample.page_two [])
              (Sample.empty_world Sample.catalogue Sample.two_books)
              Sample.catalogue (reader_allowed _) eq_refl)
    as (qb & Hskip & Hlimit & (evs & Hlog & _) & Hsheet).
  destruct (Hsheet Sample.two_books Sample.two_books)
    as (path & header & lines & Hin & Hh & _ & Hl & _).
  - vm_compute in Hlog. injection Hlog as <- _. vm_compute. reflexivity.
  - repeat constructor.
  - exists qb, path, header, lines.
    split; [exact Hskip|]. split; [exact Hlimit|]. split; [|split; [exact Hin|]].
    + rewrite Hlog. apply elem_of_cons. right. apply elem_of_cons. left.
      reflexivity.
    + split; [exact Hh|exact Hl].
Defined.

(** The export of the sample catalogue: every book is fetched, whatever the
    page asked for, and the sheet has the two exported columns. *)
Lemma export_two_books :
  log (snd (export Sample.engine
              (Sample.request (Some Sample.reader) Sample.page_two [])
              (Sample.empty_world Sample.catalogue Sample.two_books)))
  = [ EBuildOptions;
      EFetch {| qb_query :=
                  Some {| where_ := ∅; page := Some 2; perPage := Some 20;
                          with_ := Some ["users"]; appends := None;
                          withTrash := false |};
                qb_select := Some ["title"; "author_id"];
                qb_skip := None; qb_limit := None; qb_ignoreScopes := [] |};
      EMkdir "/tmp";
      EWriteFile "/tmp/export-0.5.xlsx"
        [("Sheet1", [ [VStr "Title"; VStr "author_id"];
                      [VStr "A"; VStr "u1"];
                      [VStr "B"; VUndefined] ])];
      EAttachment "/tmp/export-0.5.xlsx" "Post-now.xlsx" ].
Proof. vm_compute. reflexivity. Qed.

(** ** options *)

Section Options.

Context (C : Collaborators).

(** When the constraint compiles, every piece of the text gets its own
    one-property object holding the compiled expression. *)
Lemma push_orWhere_compiled constraint re pieces :
  RegExp_new C constraint "i" = Ok re ->
  push_orWhere C constraint pieces
  = Ok (List.map (fun field => VObj {[ field := re ]}) pieces).
Proof.
  intros Hre. induction pieces as [|v rest IH]; [reflexivity|].
  simpl. rewrite Hre, IH. reflexivity.
Qed.

Lemma RegExp_new_flags constraint flags re :
  RegExp_new C constraint flags = Ok re ->
  ∃ src, re = VRegExp src flags ∧ ∀ s, constraint = VStr s -> src = s.
Proof.
  unfold RegExp_new. intros H.
  destruct (regexp_valid C _) eqn:Hv; [|discriminate].
  injection H as <-. eexists. split; [reflexivity|].
  intros s ->. reflexivity.
Qed.

(** The one collaborator call of [options] is the lookup, over the rewritten
    constraint object. *)
Lemma options_run ctx w cond cond' :
  JSON_parse C (where_of ctx) = Ok cond ->
  options_where C (text_of ctx) cond = Ok cond' ->
  ∃ value_ lim,
    log (snd (options C ctx w))
    = log w ++ [EFetchOptions value_ (text_of ctx) cond' lim].
Proof.
  intros Hparse Hwhere. unfold options. run.
  fold (where_of ctx). fold (text_of ctx). rewrite Hparse, Hwhere. simpl.
  eexists _, _.
  destruct (fetchOptions C _ _ _ _ _); reflexivity.
Qed.

End Options.

Lemma includes_space_not_or text : includes " " text = true -> text ≠ "$or".
Proof. intros H ->. discriminate. Qed.

(** C7, as the code has it. For an [options] request whose parsed [where]
    has a truthy constraint under the key [text], whose [text] contains a
    space, and whose constraint compiles as a regular expression: the
    constraint object handed to the lookup has, under '$or', one
    [{ field: /constraint/i }] per piece of [text] between spaces, in order;
    it no longer has the key [text]; and its other keys are as parsed. *)
Theorem options_or_match (C : Collaborators) (ctx : Ctx) (w : World)
    (cond : gmap string value) (constraint re : value) :
  JSON_parse C (where_of ctx) = Ok cond ->
  cond !! text_of ctx = Some constraint ->
  truthy constraint = true ->
  includes " " (text_of ctx) = true ->
  RegExp_new C constraint "i" = Ok re ->
  ∃ cond' value_ lim,
    log (snd (options C ctx w))
    = log w ++ [EFetchOptions value_ (text_of ctx) cond' lim]
    ∧ cond' !! "$or"
      = Some (VArr (List.map (fun field => VObj {[ field := re ]})
                             (split " " (text_of ctx))))
    ∧ cond' !! text_of ctx = None
    ∧ (∀ k, k ≠ text_of ctx -> k ≠ "$or" -> cond' !! k = cond !! k)
    ∧ (∃ src, re = VRegExp src "i" ∧ ∀ s, constraint = VStr s -> src = s).
Proof.
  intros Hparse Hc Ht Hsp Hre.
  assert (Hwhere : options_where C (text_of ctx) cond
            = Ok (<["$or" := VArr (List.map (fun field => VObj {[ field := re ]})
                                            (split " " (text_of ctx)))]>
                    (delete (text_of ctx) cond))).
  { unfold options_where. rewrite Hc, Ht, Hsp.
    rewrite (push_orWhere_compiled C constraint re _ Hre). reflexivity. }
  destruct (options_run C ctx w cond _ Hparse Hwhere) as (value_ & lim & Hlog).
  eexists _, value_, lim. split; [exact Hlog|].
  pose proof (includes_space_not_or _ Hsp) as Hne.
  split; [apply lookup_insert_eq|]. split; [|split].
  - rewrite lookup_insert_ne by congruence. apply lookup_delete_eq.
  - intros k Hk Hor. rewrite lookup_insert_ne by congruence.
    apply lookup_delete_ne. congruence.
  - exact (RegExp_new_flags C constraint "i" re Hre).
Qed.

Lemma options_or_match_witness :
  ∃ cond' value_ lim,
    log (snd (options Sample.engine
                (Sample.lookup_request
                   (Some "name title")
                   (Some (Sample.json_pair "name title" "abc")))
                (Sample.empty_world [] [])))
    = [] ++ [EFetchOptions value_ "name title" cond' lim]
    ∧ cond' !! "$or"
      = Some (VArr [ VObj {[ "name" := VRegExp "abc" "i" ]};
                     VObj {[ "title" := VRegExp "abc" "i" ]} ])
    ∧ cond' !! "name title" = None
    ∧ (∀ k, k ≠ "name title" -> k ≠ "$or" ->
            cond' !! k
            = ({[ "name title" := VStr "abc" ]} : gmap string value) !! k)
    ∧ (∃ src, VRegExp "abc" "i" = VRegExp src "i"
              ∧ ∀ s, VStr "abc" = VStr s -> src = s).
Proof.
  apply (options_or_match Sample.engine
           (Sample.lookup_request
              (Some "name title")
              (Some (Sample.json_pair "name title" "abc")))
           (Sample.empty_world [] [])
           {[ "name title" := VStr "abc" ]} (VStr "abc")
           (VRegExp "abc" "i")).
  - vm_compute. reflexivity.
  - vm_compute. reflexivity.
  - reflexivity.
  - reflexivity.
  - reflexivity.
Defined.

(** C7 as stated fails: with [text] a single field name, a constraint under
    that key is not converted and not removed; the lookup receives it as it
    was, beside an empty '$or'. *)
Lemma options_single_field_keeps_key :
  log (snd (options Sample.engine
              (Sample.lookup_request
                 (Some "name") (Some (Sample.json_pair "name" "abc")))
              (Sample.empty_world [] [])))
  = [EFetchOptions "_id" "name"
       (<["$or" := VArr []]> {[ "name" := VStr "abc" ]}) (Fin 10)]
  ∧ (<["$or" := VArr []]> ({[ "name" := VStr "abc" ]} : gmap string value))
      !! "name" = Some (VStr "abc")
  ∧ (<["$or" := VArr []]> ({[ "name" := VStr "abc" ]} : gmap string value))
      !! "$or" = Some (VArr []).
Proof. repeat split; vm_compute; reflexivity. Qed.

(** * Further properties of the handlers *)

(** ** Requests that are not refused *)

Lemma absent_user_allowed permission : ¬ denies None permission.
Proof. intros (u & check & H & _). discriminate. Qed.

Lemma user_without_can_allowed u permission :
  can u = None -> ¬ denies (Some u) permission.
Proof. intros Hc (u' & check & [= <-] & H & _). congruence. Qed.

(** X1. [import] never succeeds and never touches anything: it ends with
    the 403 error for a refused actor and with the 400 "Not implemented."
    error for every other, and the world is as it was. *)
Theorem import_never_succeeds (ctx : Ctx) (w : World) :
  snd (import ctx w) = w
  ∧ (denies (auth_user ctx) (permission_of ctx "import") ->
     fst (import ctx w) = Throw Unauthorized)
  ∧ (¬ denies (auth_user ctx) (permission_of ctx "import") ->
     fst (import ctx w) = Throw (HttpException "Not implemented." 400)).
Proof.
  unfold import.
  destruct (denies_dec (auth_user ctx) (permission_of ctx "import")) as [Hd|Hn].
  - rewrite refused_first by exact Hd. repeat split; auto. intros; contradiction.
  - rewrite allowed_first by exact Hn. repeat split; auto. intros; contradiction.
Qed.

(** X2. A request without a user is not refused by the guard, and [index]
    then fails with a TypeError when it reads the user's permissions: no
    query is run and the world is as it was. *)
Theorem index_without_user_TypeError (C : Collaborators) (ctx : Ctx)
    (w : World) :
  auth_user ctx = None -> index C ctx w = (Throw TypeError, w).
Proof.
  intros Hu. unfold index.
  rewrite allowed_first by (rewrite Hu; apply absent_user_allowed).
  unfold the_user. rewrite Hu. reflexivity.
Qed.

Lemma index_without_user_TypeError_witness :
  index Sample.engine (Sample.request None Sample.page_two [])
        (Sample.empty_world Sample.catalogue Sample.two_books)
  = (Throw TypeError, Sample.empty_world Sample.catalogue Sample.two_books).
Proof.
  apply (index_without_user_TypeError Sample.engine
           (Sample.request None Sample.page_two [])).
  reflexivity.
Defined.

(** X3. The role check of [store] runs once per payload key: past the guard,
    an empty payload reaches the validator whoever asks (even with no user),
    while a payload with at least one key, sent with no user or by a user
    without [isRole], fails with a TypeError and the world as it was. *)
Theorem store_role_check_per_key (C : Collaborators) (ctx : Ctx) (w : World) :
  ¬ denies (auth_user ctx) (permission_of ctx "create") ->
  (request_all ctx = [] ->
   ∃ rest, log (snd (store C ctx w)) = log w ++ EValidate [] :: rest)
  ∧ (request_all ctx ≠ [] ->
     auth_user ctx = None ∨ (∃ u, auth_user ctx = Some u ∧ isRole u = None) ->
     store C ctx w = (Throw TypeError, w)).
Proof.
  intros Hn. split.
  - intros He.
    destruct (store_validates C ctx w [] Hn) as (rest & Hlog & _).
    { rewrite He. reflexivity. }
    eauto.
  - intros Hne Hu. apply store_filter_throws; [exact Hn|].
    destruct (request_all ctx) as [|[k v] rest]; [contradiction|].
    simpl. destruct Hu as [-> | (u & -> & Hr)]; [reflexivity|].
    unfold store_omits. rewrite Hr. destruct (obj_get k (fields w)); reflexivity.
Qed.

Lemma store_role_check_per_key_witness :
  (∃ rest,
     log (snd (store Sample.engine (Sample.request None Sample.no_query [])
                 (Sample.empty_world Sample.catalogue [])))
     = [] ++ EValidate [] :: rest)
  ∧ store Sample.engine
      (Sample.request None Sample.no_query [("title", VStr "x")])
      (Sample.empty_world Sample.catalogue [])
    = (Throw TypeError, Sample.empty_world Sample.catalogue []).
Proof.
  split.
  - apply (proj1 (store_role_check_per_key Sample.engine
                    (Sample.request None Sample.no_query [])
                    (Sample.empty_world Sample.catalogue [])
                    (absent_user_allowed _))).
    reflexivity.
  - apply (proj2 (store_role_check_per_key Sample.engine
                    (Sample.request None Sample.no_query [("title", VStr "x")])
                    (Sample.empty_world Sample.catalogue [])
                    (absent_user_allowed _))).
    + discriminate.
    + left. reflexivity.
Defined.

(** ** What the mutation handlers leave behind *)

(** X4. Past the guard, [update] validates the payload as submitted; a
    validator that throws ends it there, with nothing merged or saved and the
    records as they were; a save that throws reaches the caller unchanged,
    the records as they were; and when both succeed the reply is the saved
    instance and the records are those the save left. *)
Theorem update_outcome (C : Collaborators) (ctx : Ctx) (w : World) :
  ¬ denies (auth_user ctx) (permission_of ctx "update") ->
  (∀ e, validate C (model ctx) (request_all ctx) = Throw e ->
        update C ctx w
        = (Throw e,
           {| db := db w; fields := fields w;
              log := log w ++ [EValidate (request_all ctx)] |}))
  ∧ (validate C (model ctx) (request_all ctx) = Ok tt ->
     (∀ e, save C (db w) (merge C (model ctx) (request_all ctx)) = Throw e ->
           update C ctx w
           = (Throw e,
              {| db := db w; fields := fields w;
                 log := log w ++ [EValidate (request_all ctx);
                                  EMerge (request_all ctx);
                                  ESave (merge C (model ctx) (request_all ctx))]
              |}))
     ∧ (∀ d' saved,
          save C (db w) (merge C (model ctx) (request_all ctx))
            = Ok (d', saved) ->
          update C ctx w
          = (Ok (RModel saved),
             {| db := d'; fields := fields w;
                log := log w ++ [EValidate (request_all ctx);
                                 EMerge (request_all ctx);
                                 ESave (merge C (model ctx) (request_all ctx))]
             |}))).
Proof.
  intros Hn. unfold update. rewrite allowed_first by exact Hn. run.
  split; [intros e ->; reflexivity|].
  intros ->. simpl. split.
  - intros e ->. simpl. rewrite <- !app_assoc. reflexivity.
  - intros d' saved ->. simpl. rewrite <- !app_assoc. reflexivity.
Qed.

Lemma update_outcome_witness :
  update Sample.engine
    (Sample.request (Some Sample.reader) Sample.no_query [("title", VStr "x")])
    (Sample.empty_world Sample.catalogue [])
  = (Ok (RModel {[ "title" := VStr "x" ]}),
     {| db := [ {[ "title" := VStr "x" ]} ]; fields := Sample.catalogue;
        log := [EValidate [("title", VStr "x")]; EMerge [("title", VStr "x")];
                ESave {[ "title" := VStr "x" ]}] |}).
Proof.
  apply (proj2 (proj2 (update_outcome Sample.engine
           (Sample.request (Some Sample.reader) Sample.no_query
              [("title", VStr "x")])
           (Sample.empty_world Sample.catalogue [])
           (reader_allowed _)) eq_refl)).
  vm_compute. reflexivity.
Defined.

(** X5. Past the guard, for an actor that exposes [isRole] and a payload of
    declared fields, [store] works on the payload without the fields whose
    role the actor lacks: a validator that throws ends it with nothing
    merged or saved; a save that throws reaches the caller, the records as
    they were; and when both succeed the reply is the saved instance, built
    by merging that filtered payload into the model. *)
Theorem store_outcome (C : Collaborators) (ctx : Ctx) (w : World) (u : Actor)
    (holds : option string -> bool) (data : Obj value) :
  ¬ denies (auth_user ctx) (permission_of ctx "create") ->
  auth_user ctx = Some u -> isRole u = Some holds ->
  (∀ k v, (k, v) ∈ request_all ctx -> is_Some (obj_get k (fields w))) ->
  data = List.filter (fun kv => match obj_get (fst kv) (fields w) with
                                | Some fd => holds (role fd)
                                | None => false
                                end) (request_all ctx) ->
  (∀ e, validate C (model ctx) data = Throw e ->
        store C ctx w
        = (Throw e,
           {| db := db w; fields := fields w;
              log := log w ++ [EValidate data] |}))
  ∧ (validate C (model ctx) data = Ok tt ->
     (∀ e, save C (db w) (merge C (model ctx) data) = Throw e ->
           store C ctx w
           = (Throw e,
              {| db := db w; fields := fields w;
                 log := log w ++ [EValidate data; EMerge data;
                                  ESave (merge C (model ctx) data)] |}))
     ∧ (∀ d' saved,
          save C (db w) (merge C (model ctx) data) = Ok (d', saved) ->
          store C ctx w
          = (Ok (RModel saved),
             {| db := d'; fields := fields w;
                log := log w ++ [EValidate data; EMerge data;
                                 ESave (merge C (model ctx) data)] |}))).
Proof.
  intros Hn Hu Hrole Hall ->.
  pose proof (omitByM_declared u holds (fields w) (request_all ctx) Hrole Hall)
    as Hdata.
  rewrite <- Hu in Hdata.
  unfold store. rewrite allowed_first by exact Hn. run. rewrite Hdata. simpl.
  split; [intros e ->; reflexivity|].
  intros ->. simpl. split.
  - intros e ->. simpl. rewrite <- !app_assoc. reflexivity.
  - intros d' saved ->. simpl. rewrite <- !app_assoc. reflexivity.
Qed.

Lemma store_outcome_witness :
  store Sample.engine
    (Sample.request (Some Sample.staff) Sample.no_query
       [("title", VStr "x"); ("salary", VNum 9)])
    (Sample.empty_world
       [("title", Sample.plain); ("salary", Sample.admin_only)] [])
  = (Ok (RModel {[ "title" := VStr "x" ]}),
     {| db := [ {[ "title" := VStr "x" ]} ];
        fields := [("title", Sample.plain); ("salary", Sample.admin_only)];
        log := [EValidate [("title", VStr "x")]; EMerge [("title", VStr "x")];
                ESave {[ "title" := VStr "x" ]}] |}).
Proof.
  apply (proj2 (proj2 (store_outcome Sample.engine
           (Sample.request (Some Sample.staff) Sample.no_query
              [("title", VStr "x"); ("salary", VNum 9)])
           (Sample.empty_world
              [("title", Sample.plain); ("salary", Sample.admin_only)] [])
           Sample.staff
           (fun r => match r with
                     | Some name => String.eqb name "staff"
                     | None => true
                     end)
           [("title", VStr "x")]
           (staff_allowed _) eq_refl eq_refl
           ltac:(intros k v Hin;
                 repeat (apply elem_of_cons in Hin as [Hin|Hin];
                         [injection Hin as -> ->; eexists; reflexivity|]);
                 apply elem_of_nil in Hin; contradiction)
           eq_refl) eq_refl)).
  vm_compute. reflexivity.
Defined.

(** X6. Past the guard, [destroy] makes one call, the delete of the
    identified instance; it acknowledges success only when that delete
    answers, the records being those the delete left, and a delete that
    throws reaches the caller with the records as they were. *)
Theorem destroy_outcome (C : Collaborators) (ctx : Ctx) (w : World) :
  ¬ denies (auth_user ctx) (permission_of ctx "delete") ->
  log (snd (destroy C ctx w)) = log w ++ [EDelete (model ctx)]
  ∧ (∀ d', delete_ C (db w) (model ctx) = Ok d' ->
           destroy C ctx w
           = (Ok RSuccess,
              {| db := d'; fields := fields w;
                 log := log w ++ [EDelete (model ctx)] |}))
  ∧ (∀ e, delete_ C (db w) (model ctx) = Throw e ->
          destroy C ctx w
          = (Throw e,
             {| db := db w; fields := fields w;
                log := log w ++ [EDelete (model ctx)] |})).
Proof.
  intros Hn. unfold destroy. rewrite allowed_first by exact Hn. run.
  split; [|split].
  - destruct (delete_ C (db w) (model ctx)); reflexivity.
  - intros d' ->. reflexivity.
  - intros e ->. reflexivity.
Qed.

Lemma destroy_outcome_witness :
  log (snd (destroy Sample.engine
              (Sample.request (Some Sample.reader) Sample.no_query [])
              (Sample.empty_world [] Sample.two_books)))
  = [] ++ [EDelete ∅].
Proof.
  apply (proj1 (destroy_outcome Sample.engine
                  (Sample.request (Some Sample.reader) Sample.no_query [])
                  (Sample.empty_world [] Sample.two_books)
                  (reader_allowed _))).
Defined.

(** X7. The guard lets through a request with no user and a user that does
    not expose [can]: for such a request [destroyAll] issues its delete over
    the unfiltered query. *)
Theorem destroyAll_without_capability_check (C : Collaborators) (ctx : Ctx)
    (w : World) :
  auth_user ctx = None ∨ (∃ u, auth_user ctx = Some u ∧ can u = None) ->
  log (snd (destroyAll C ctx w)) = log w ++ [EQueryDelete (Model_query None)]
  ∧ (∀ left_, query_delete C (db w) (Model_query None) = Ok left_ ->
       fst (destroyAll C ctx w) = Ok RSuccess
       ∧ db (snd (destroyAll C ctx w)) = left_).
Proof.
  intros Hu.
  assert (Hn : ¬ denies (auth_user ctx) (permission_of ctx "delete_all")).
  { destruct Hu as [-> | (u & -> & Hc)];
      [apply absent_user_allowed | apply user_without_can_allowed; exact Hc]. }
  unfold destroyAll. rewrite allowed_first by exact Hn. run. split.
  - destruct (query_delete C (db w) (Model_query None)); reflexivity.
  - intros left_ ->. split; reflexivity.
Qed.

Lemma destroyAll_without_capability_check_witness :
  log (snd (destroyAll Sample.engine
              (Sample.request None Sample.no_query [])
              (Sample.empty_world [] Sample.two_books)))
  = [] ++ [EQueryDelete (Model_query None)]
  ∧ (∀ left_, query_delete Sample.engine Sample.two_books (Model_query None)
              = Ok left_ ->
       fst (destroyAll Sample.engine
              (Sample.request None Sample.no_query [])
              (Sample.empty_world [] Sample.two_books)) = Ok RSuccess
       ∧ db (snd (destroyAll Sample.engine
                    (Sample.request None Sample.no_query [])
                    (Sample.empty_world [] Sample.two_books))) = left_).
Proof.
  apply (destroyAll_without_capability_check Sample.engine
           (Sample.request None Sample.no_query [])
           (Sample.empty_world [] Sample.two_books)).
  left. reflexivity.
Defined.

(** ** The queries of index *)

(** Past the guard, with a user: the query [index] fetches, part by part, and
    the count query that may follow it. *)
Lemma index_query_shape (C : Collaborators) ctx w user :
  auth_user ctx = Some user ->
  ¬ denies (auth_user ctx) (permission_of ctx "index") ->
  ∃ evs,
    log (snd (index C ctx w))
    = log w
      ++ EFetch
           {| qb_query := Some (scope_query C user (query ctx));
              qb_select :=
                Some (obj_keys
                        (omitBy (fun v _ => bool_decide (listable v = Some false))
                                (fields w)));
              qb_skip :=
                Some (num_mul (num_sub (to_number (page (query ctx))) 1)
                              (default 20 (perPage (query ctx))));
              qb_limit := Some (default 20 (perPage (query ctx)));
              qb_ignoreScopes :=
                if withTrash (query ctx) then ["softDeletes"] else [] |}
      :: evs
    ∧ Forall (fun e =>
                e = ECount (Model_query (Some (scope_query C user (query ctx))))
                ∨ is_appends_event e) evs.
Proof.
  intros Hu Hn.
  destruct (index_run C ctx w user Hu Hn)
    as (qb & evs & Hlog & _ & _ & _ & Hev & _).
  exists evs. split; [|exact Hev].
  rewrite Hlog. f_equal. f_equal.
  clear Hev. revert Hlog. unfold index. rewrite allowed_first by exact Hn.
  unfold the_user. rewrite Hu. run.
  rewrite !scope_query_page, !scope_query_perPage.
  assert (Ht : withTrash (scope_query C user (query ctx)) = withTrash (query ctx)).
  { unfold scope_query. destruct (getPermissions user); [|reflexivity].
    case_bool_decide; reflexivity. }
  rewrite Ht.
  match goal with |- context [fetch C (db w) ?m] => set (mq := m) end.
  intros Hlog.
  assert (Hfirst : ∃ rest, log w ++ EFetch qb :: evs = log w ++ EFetch mq :: rest).
  { rewrite <- Hlog.
    destruct (fetch C (db w) mq) as [rows|e]; simpl.
    - destruct (count C (db w) _) as [total|e]; simpl.
      + match goal with |- context [processData C ?q rows ?x] =>
          destruct (processData_spec C q rows x) as (a & Ha & _);
          destruct (processData C q rows x) as [[?|?] ?]
        end; simpl in *; rewrite Ha; simpl; rewrite <- !app_assoc; eauto.
      + rewrite <- !app_assoc; eauto.
    - eauto. }
  destruct Hfirst as (rest & Heq). apply app_inv_head in Heq.
  injection Heq as -> _. subst mq.
  destruct (withTrash (query ctx)); reflexivity.
Qed.

Lemma obj_keys_omitBy {A} (pred : A -> string -> bool) (o : Obj A) k :
  k ∈ obj_keys (omitBy pred o) ↔ ∃ v, (k, v) ∈ o ∧ pred v k = false.
Proof.
  unfold obj_keys, omitBy. rewrite list_elem_of_In, in_map_iff. split.
  - intros ([k' v] & Hk & Hin). simpl in Hk. subst k'.
    apply filter_In in Hin as [Hin Hp]. simpl in Hp.
    exists v. split; [apply list_elem_of_In; exact Hin|].
    destruct (pred v k); [discriminate|reflexivity].
  - intros (v & Hin & Hp). exists (k, v). split; [reflexivity|].
    apply filter_In. split; [apply list_elem_of_In; exact Hin|].
    simpl. rewrite Hp. reflexivity.
Qed.

Lemma obj_keys_omitBy_sublist {A} (pred : A -> string -> bool) (o : Obj A) :
  obj_keys (omitBy pred o) `sublist_of` obj_keys o.
Proof.
  unfold obj_keys, omitBy. induction o as [|[k v] o IH]; simpl; [constructor|].
  destruct (pred v k); simpl; constructor; exact IH.
Qed.

(** An object has one value per key. *)
Lemma obj_key_unique {A} (o : Obj A) k (a b : A) :
  NoDup (obj_keys o) -> (k, a) ∈ o -> (k, b) ∈ o -> a = b.
Proof.
  unfold obj_keys. induction o as [|[k0 v0] o IH]; intros Hnd Ha Hb.
  - apply elem_of_nil in Ha. contradiction.
  - simpl in Hnd. apply NoDup_cons in Hnd as [Hnot Hnd].
    assert (Hkey : ∀ x, (k0, x) ∈ o -> False).
    { intros x Hx. apply Hnot. apply list_elem_of_In, in_map_iff.
      exists (k0, x). split; [reflexivity|apply list_elem_of_In; exact Hx]. }
    apply elem_of_cons in Ha as [Ha|Ha]; apply elem_of_cons in Hb as [Hb|Hb].
    + congruence.
    + injection Ha as -> ->. exfalso. eapply Hkey. exact Hb.
    + injection Hb as -> ->. exfalso. eapply Hkey. exact Ha.
    + exact (IH Hnd Ha Hb).
Qed.

(** X8. Past the guard, with a user: the columns [index] selects are the
    keys of the fields whose [listable] flag is not [false], in the fields'
    order; a field declared with [listable: false] is never selected. *)
Theorem index_selects_listable (C : Collaborators) (ctx : Ctx) (w : World)
    (user : Actor) :
  auth_user ctx = Some user ->
  ¬ denies (auth_user ctx) (permission_of ctx "index") ->
  ∃ qb cols evs,
    log (snd (index C ctx w)) = log w ++ EFetch qb :: evs
    ∧ qb_select qb = Some cols
    ∧ (∀ k, k ∈ cols ↔ ∃ fd, (k, fd) ∈ fields w ∧ listable fd ≠ Some false)
    ∧ cols `sublist_of` obj_keys (fields w)
    ∧ (NoDup (obj_keys (fields w)) ->
       ∀ k fd, (k, fd) ∈ fields w -> listable fd = Some false -> k ∉ cols).
Proof.
  intros Hu Hn.
  destruct (index_query_shape C ctx w user Hu Hn) as (evs & Hlog & _).
  eexists _, _, evs. split; [exact Hlog|]. split; [reflexivity|].
  assert (Hcols : ∀ k,
            k ∈ obj_keys (omitBy (fun v _ => bool_decide (listable v = Some false))
                                 (fields w))
            ↔ ∃ fd, (k, fd) ∈ fields w ∧ listable fd ≠ Some false).
  { intros k. rewrite obj_keys_omitBy. split.
    - intros (fd & Hin & Hp). exists fd. split; [exact Hin|].
      apply bool_decide_eq_false in Hp. exact Hp.
    - intros (fd & Hin & Hp). exists fd. split; [exact Hin|].
      apply bool_decide_eq_false. exact Hp. }
  split; [exact Hcols|]. split; [apply obj_keys_omitBy_sublist|].
  intros Hnd k fd Hin Hfalse Hk. apply Hcols in Hk as (fd' & Hin' & Hl).
  rewrite (obj_key_unique _ _ _ _ Hnd Hin' Hin) in Hl. contradiction.
Qed.

Lemma index_selects_listable_witness :
  ∃ qb cols evs,
    log (snd (index Sample.engine
                (Sample.request (Some Sample.reader) Sample.page_two [])
                (Sample.empty_world Sample.catalogue Sample.two_books)))
    = [] ++ EFetch qb :: evs
    ∧ qb_select qb = Some cols
    ∧ (∀ k, k ∈ cols ↔
            ∃ fd, (k, fd) ∈ Sample.catalogue ∧ listable fd ≠ Some false)
    ∧ cols `sublist_of` obj_keys Sample.catalogue
    ∧ (NoDup (obj_keys Sample.catalogue) ->
       ∀ k fd, (k, fd) ∈ Sample.catalogue -> listable fd = Some false ->
               k ∉ cols).
Proof.
  apply (index_selects_listable Sample.engine
           (Sample.request (Some Sample.reader) Sample.page_two [])
           (Sample.empty_world Sample.catalogue Sample.two_books)
           Sample.reader eq_refl (reader_allowed _)).
Defined.

(** X9. Past the guard, with a user: [withTrash] lifts the soft-delete
    scope from the fetch only.  The fetch ignores the scope 'softDeletes'
    exactly when the request has [withTrash]; the count query is never given
    an ignored scope, an offset, a limit or a selection, so the total counts
    the default-scoped records even when trashed ones are fetched. *)
Theorem index_withTrash_fetch_only (C : Collaborators) (ctx : Ctx) (w : World)
    (user : Actor) :
  auth_user ctx = Some user ->
  ¬ denies (auth_user ctx) (permission_of ctx "index") ->
  ∃ qb evs,
    log (snd (index C ctx w)) = log w ++ EFetch qb :: evs
    ∧ (withTrash (query ctx) = true -> qb_ignoreScopes qb = ["softDeletes"])
    ∧ (withTrash (query ctx) = false -> qb_ignoreScopes qb = [])
    ∧ (∀ qc, ECount qc ∈ evs ->
             qb_ignoreScopes qc = [] ∧ qb_skip qc = None
             ∧ qb_limit qc = None ∧ qb_select qc = None
             ∧ qb_query qc = qb_query qb).
Proof.
  intros Hu Hn.
  destruct (index_query_shape C ctx w user Hu Hn) as (evs & Hlog & Hev).
  eexists _, evs. split; [exact Hlog|]. simpl.
  split; [intros ->; reflexivity|]. split; [intros ->; reflexivity|].
  intros qc Hin. rewrite Forall_forall in Hev.
  apply Hev in Hin as [H|(? & ? & H)]; [|discriminate].
  injection H as ->. repeat split; reflexivity.
Qed.

Lemma index_withTrash_fetch_only_witness :
  ∃ qb evs,
    log (snd (index Sample.engine
                (Sample.request (Some Sample.reader) Sample.with_trash [])
                (Sample.empty_world Sample.catalogue Sample.two_books)))
    = [] ++ EFetch qb :: evs
    ∧ (true = true -> qb_ignoreScopes qb = ["softDeletes"])
    ∧ (true = false -> qb_ignoreScopes qb = [])
    ∧ (∀ qc, ECount qc ∈ evs ->
             qb_ignoreScopes qc = [] ∧ qb_skip qc = None
             ∧ qb_limit qc = None ∧ qb_select qc = None
             ∧ qb_query qc = qb_query qb).
Proof.
  apply (index_withTrash_fetch_only Sample.engine
           (Sample.request (Some Sample.reader) Sample.with_trash [])
           (Sample.empty_world Sample.catalogue Sample.two_books)
           Sample.reader eq_refl (reader_allowed _)).
Defined.

(** X10. Past the guard, for a user that exposes no [getPermissions] or whose
    permissions do not include 'groups.@', the query object reaches the
    engine as the client sent it, in the fetch and in the count. *)
Theorem index_unscoped_query_as_sent (C : Collaborators) (ctx : Ctx)
    (w : World) (user : Actor) :
  auth_user ctx = Some user ->
  ¬ denies (auth_user ctx) (permission_of ctx "index") ->
  getPermissions user = None
  ∨ (∃ perms, getPermissions user = Some perms ∧ "groups.@" ∉ perms) ->
  ∃ qb evs,
    log (snd (index C ctx w)) = log w ++ EFetch qb :: evs
    ∧ qb_query qb = Some (query ctx)
    ∧ (∀ qc, ECount qc ∈ evs -> qc = Model_query (Some (query ctx))).
Proof.
  intros Hu Hn Hperms.
  assert (Hq : scope_query C user (query ctx) = query ctx).
  { unfold scope_query. destruct Hperms as [-> | (perms & -> & Hnot)];
      [reflexivity|]. rewrite bool_decide_eq_false_2 by exact Hnot.
    reflexivity. }
  destruct (index_query_shape C ctx w user Hu Hn) as (evs & Hlog & Hev).
  rewrite Hq in Hlog, Hev.
  eexists _, evs. split; [exact Hlog|]. split; [reflexivity|].
  intros qc Hin. rewrite Forall_forall in Hev.
  apply Hev in Hin as [H|(? & ? & H)]; [|discriminate].
  injection H as ->. reflexivity.
Qed.

Lemma index_unscoped_query_as_sent_witness :
  ∃ qb evs,
    log (snd (index Sample.engine
                (Sample.request (Some Sample.reader) Sample.others_drafts [])
                (Sample.empty_world Sample.catalogue Sample.two_books)))
    = [] ++ EFetch qb :: evs
    ∧ qb_query qb = Some Sample.others_drafts
    ∧ (∀ qc, ECount qc ∈ evs -> qc = Model_query (Some Sample.others_drafts)).
Proof.
  apply (index_unscoped_query_as_sent Sample.engine
           (Sample.request (Some Sample.reader) Sample.others_drafts [])
           (Sample.empty_world Sample.catalogue Sample.two_books)
           Sample.reader eq_refl (reader_allowed _)).
  left. reflexivity.
Defined.

(** ** The resolution of appends *)

Section AppendsOrder.

Context (C : Collaborators).

Lemma fetchAppends_each_all names rows data w :
  Forall2 (fun r r' => fetchAppends C r names = Ok r') rows data ->
  fetchAppends_each C names rows w
  = (Ok data,
     {| db := db w; fields := fields w;
        log := log w ++ List.map (fun r => EFetchAppends r names) rows |}).
Proof.
  intros H. revert w. induction H as [|r r' rows data Hr _ IH]; intros w.
  - simpl. rewrite app_nil_r. destruct w; reflexivity.
  - simpl. unfold bind at 1. unfold call_fetchAppends, bind, emit, lift. simpl.
    rewrite Hr. unfold bind. rewrite IH. simpl. rewrite <- app_assoc.
    reflexivity.
Qed.

Lemma fetchAppends_each_stops names done r e rest w :
  Forall (fun x => ∃ x', fetchAppends C x names = Ok x') done ->
  fetchAppends C r names = Throw e ->
  fetchAppends_each C names (done ++ r :: rest) w
  = (Throw e,
     {| db := db w; fields := fields w;
        log := log w ++ List.map (fun x => EFetchAppends x names) (done ++ [r])
     |}).
Proof.
  intros Hdone Hr. revert w.
  induction Hdone as [|x done (x' & Hx) _ IH]; intros w.
  - simpl. unfold bind at 1. unfold call_fetchAppends, bind, emit, lift. simpl.
    rewrite Hr. reflexivity.
  - simpl. unfold bind at 1. unfold call_fetchAppends, bind, emit, lift. simpl.
    rewrite Hx. unfold bind. rewrite IH. simpl. rewrite <- app_assoc.
    reflexivity.
Qed.

End AppendsOrder.

(** X11. [processData] leaves the rows alone and calls nothing when the
    query has no [appends].  With [appends] (even an empty list) it calls
    [fetchAppends] on the rows one by one in their order: when every call
    answers, it returns the resolved rows in the same order after exactly one
    call per row; at the first call that throws it stops, the exception
    reaches the caller, and no later row has been touched. *)
Theorem processData_in_order (C : Collaborators) (q : QuerySpec)
    (rows : list Row) (w : World) :
  (appends q = None -> processData C q rows w = (Ok rows, w))
  ∧ (∀ names, appends q = Some names ->
       (∀ data,
          Forall2 (fun r r' => fetchAppends C r names = Ok r') rows data ->
          processData C q rows w
          = (Ok data,
             {| db := db w; fields := fields w;
                log := log w ++ List.map (fun r => EFetchAppends r names) rows
             |})
          ∧ List.length data = List.length rows)
       ∧ (∀ done r e rest,
            rows = done ++ r :: rest ->
            Forall (fun x => ∃ x', fetchAppends C x names = Ok x') done ->
            fetchAppends C r names = Throw e ->
            processData C q rows w
            = (Throw e,
               {| db := db w; fields := fields w;
                  log := log w
                         ++ List.map (fun x => EFetchAppends x names)
                                     (done ++ [r]) |}))).
Proof.
  unfold processData. split.
  - intros ->. reflexivity.
  - intros names ->. split.
    + intros data Hdata. split; [apply fetchAppends_each_all; exact Hdata|].
      symmetry. exact (Forall2_length _ _ _ Hdata).
    + intros done r e rest -> Hdone Hr.
      apply fetchAppends_each_stops; assumption.
Qed.

(** ** The run of export *)

Section ExportRun.

Context (C : Collaborators).

Lemma processData_run q rows data w :
  Forall2 (processed C q) rows data ->
  processData C q rows w
  = (Ok data,
     {| db := db w; fields := fields w;
        log := log w ++ appends_calls q rows |}).
Proof.
  unfold processData, processed, appends_calls.
  destruct (appends q) as [names|].
  - apply fetchAppends_each_all.
  - intros H. rewrite app_nil_r.
    assert (data = rows) as ->.
    { induction H as [|r r' rows data Hr _ IH]; [reflexivity|].
      rewrite Hr, IH. reflexivity. }
    destruct w; reflexivity.
Qed.

(** Past the guard and [buildOptions]: what [export] does when the fetch
    throws, and, when the fetch answers, when the file is or is not
    written. *)
Lemma export_outcome_run ctx w flds :
  ¬ denies (auth_user ctx) (permission_of ctx "export") ->
  buildOptions C (fields w) = Ok flds ->
  let mq :=
    {| qb_query := Some (add_with (populate (export_fields flds)) (query ctx));
       qb_select := Some (obj_keys (export_fields flds));
       qb_skip := None; qb_limit := None;
       qb_ignoreScopes :=
         if withTrash (query ctx) then ["softDeletes"] else [] |} in
  let path := tmpPath C (Some ("export-" ++ random_text C ++ ".xlsx")%string) in
  let name := (match Model_label ctx with
               | Some l => if String.eqb l "" then Model_name ctx else l
               | None => Model_name ctx
               end ++ "-" ++ now_text C ++ ".xlsx")%string in
  (∀ e, fetch C (db w) mq = Throw e ->
        export C ctx w
        = (Throw e,
           {| db := db w; fields := flds;
              log := log w ++ [EBuildOptions; EFetch mq] |}))
  ∧ (∀ rows data,
       fetch C (db w) mq = Ok rows ->
       Forall2 (processed C (query ctx)) rows data ->
       (writeFileSync C path [("Sheet1", sheet C (export_fields flds) data)]
          = Ok tt ->
        export C ctx w
        = (Ok (RAttachment path name),
           {| db := db w; fields := flds;
              log := log w ++ [EBuildOptions; EFetch mq]
                     ++ appends_calls (query ctx) rows
                     ++ [EMkdir (tmpPath C None);
                         EWriteFile path
                           [("Sheet1", sheet C (export_fields flds) data)];
                         EAttachment path name] |}))
       ∧ (∀ e,
            writeFileSync C path [("Sheet1", sheet C (export_fields flds) data)]
              = Throw e ->
            export C ctx w
            = (Throw e,
               {| db := db w; fields := flds;
                  log := log w ++ [EBuildOptions; EFetch mq]
                         ++ appends_calls (query ctx) rows
                         ++ [EMkdir (tmpPath C None);
                             EWriteFile path
                               [("Sheet1", sheet C (export_fields flds) data)]]
               |}))).
Proof.
  intros Hn Hb mq path name. unfold export. rewrite allowed_first by exact Hn.
  run. rewrite Hb. simpl.
  replace (if withTrash (query ctx)
           then ignoreScopes ["softDeletes"]
                  (select (obj_keys (export_fields flds))
                     (Model_query
                        (Some (add_with (populate (export_fields flds))
                                        (query ctx)))))
           else select (obj_keys (export_fields flds))
                  (Model_query
                     (Some (add_with (populate (export_fields flds))
                                     (query ctx)))))
    with mq by (subst mq; destruct (withTrash (query ctx)); reflexivity).
  split.
  - intros e ->. simpl. rewrite <- app_assoc. reflexivity.
  - intros rows data -> Hdata.
    rewrite (processData_run
               (add_with (populate (export_fields flds)) (query ctx))
               rows data _ Hdata).
    simpl. fold path. fold name.
    change (appends_calls (add_with (populate (export_fields flds)) (query ctx))
              rows) with (appends_calls (query ctx) rows).
    split.
    + intros ->. simpl. rewrite <- !app_assoc. reflexivity.
    + intros e ->. simpl. rewrite <- !app_assoc. reflexivity.
Qed.

End ExportRun.

Section ExportQuery.

Context (C : Collaborators).

(** Past the guard and [buildOptions], the first two calls of [export] are
    [buildOptions] and the fetch of the unpaginated query. *)
Lemma export_first_calls ctx w flds :
  ¬ denies (auth_user ctx) (permission_of ctx "export") ->
  buildOptions C (fields w) = Ok flds ->
  ∃ evs,
    log (snd (export C ctx w))
    = log w
      ++ EBuildOptions
      :: EFetch
           {| qb_query :=
                Some (add_with (populate (export_fields flds)) (query ctx));
              qb_select := Some (obj_keys (export_fields flds));
              qb_skip := None; qb_limit := None;
              qb_ignoreScopes :=
                if withTrash (query ctx) then ["softDeletes"] else [] |}
      :: evs.
Proof.
  intros Hn Hb.
  destruct (export_run C ctx w flds Hn Hb)
    as (qb & Hs & Hl & Hsel & (evs & Hlog & _) & _).
  exists evs. rewrite Hlog. do 3 f_equal.
  revert Hlog. unfold export. rewrite allowed_first by exact Hn.
  run. rewrite Hb. simpl.
  match goal with |- context [fetch C (db w) ?m] => set (mq := m) end.
  intros Hlog.
  assert (Hfirst : ∃ rest, log w ++ EBuildOptions :: EFetch qb :: evs
                           = log w ++ EBuildOptions :: EFetch mq :: rest).
  { rewrite <- Hlog.
    destruct (fetch C (db w) mq) as [rows|e]; simpl.
    - match goal with |- context [processData C ?q rows ?x] =>
        destruct (processData_spec C q rows x) as (a & Ha & _);
        destruct (processData C q rows x) as [[?|?] ?]
      end; simpl in *.
      + destruct (writeFileSync C _ _); simpl; rewrite Ha; simpl;
          rewrite <- !app_assoc; simpl; eauto.
      + rewrite Ha. simpl. rewrite <- !app_assoc. simpl. eauto.
    - rewrite <- !app_assoc. simpl. eauto. }
  destruct Hfirst as (rest & Heq). apply app_inv_head in Heq.
  injection Heq as -> _. subst mq.
  destruct (withTrash (query ctx)); reflexivity.
Qed.

End ExportQuery.





(** X13. Past the guard and [buildOptions]: a fetch that throws ends
    [export] before any file is touched; when the fetch answers, the
    directory is made and the workbook written at a path under the temporary
    directory, and only after a successful write is the attachment sent and
    returned, named after the entity's label (its name when the label is
    missing or empty) and the date; a write that throws reaches the caller
    and no attachment is sent. *)
Theorem export_attachment_follows_write (C : Collaborators) (ctx : Ctx)
    (w : World) (flds : Fields) :
  ¬ denies (auth_user ctx) (permission_of ctx "export") ->
  buildOptions C (fields w) = Ok flds ->
  ∃ qb path name,
    (∃ evs, log (snd (export C ctx w))
            = log w ++ EBuildOptions :: EFetch qb :: evs)
    ∧ path = tmpPath C (Some ("export-" ++ random_text C ++ ".xlsx")%string)
    ∧ (∀ l, Model_label ctx = Some l -> l ≠ "" ->
            name = (l ++ "-" ++ now_text C ++ ".xlsx")%string)
    ∧ (Model_label ctx = None ∨ Model_label ctx = Some "" ->
       name = (Model_name ctx ++ "-" ++ now_text C ++ ".xlsx")%string)
    ∧ (∀ e, fetch C (db w) qb = Throw e ->
            export C ctx w
            = (Throw e,
               {| db := db w; fields := flds;
                  log := log w ++ [EBuildOptions; EFetch qb] |}))
    ∧ (∀ rows data,
         fetch C (db w) qb = Ok rows ->
         Forall2 (processed C (query ctx)) rows data ->
         ∃ book,
           (writeFileSync C path book = Ok tt ->
            export C ctx w
            = (Ok (RAttachment path name),
               {| db := db w; fields := flds;
                  log := log w ++ [EBuildOptions; EFetch qb]
                         ++ appends_calls (query ctx) rows
                         ++ [EMkdir (tmpPath C None); EWriteFile path book;
                             EAttachment path name] |}))
           ∧ (∀ e, writeFileSync C path book = Throw e ->
                   export C ctx w
                   = (Throw e,
                      {| db := db w; fields := flds;
                         log := log w ++ [EBuildOptions; EFetch qb]
                                ++ appends_calls (query ctx) rows
                                ++ [EMkdir (tmpPath C None);
                                    EWriteFile path book] |}))).
Proof.
  intros Hn Hb.
  pose proof (export_outcome_run C ctx w flds Hn Hb) as [Hfail Hok].
  eexists _,
    (tmpPath C (Some ("export-" ++ random_text C ++ ".xlsx")%string)),
    (match Model_label ctx with
     | Some l => if String.eqb l "" then Model_name ctx else l
     | None => Model_name ctx
     end ++ "-" ++ now_text C ++ ".xlsx")%string.
  split; [exact (export_first_calls C ctx w flds Hn Hb)|].
  split; [reflexivity|].
  split; [|split; [|split; [exact Hfail|]]].
  - intros l -> Hl. apply String.eqb_neq in Hl. rewrite Hl. reflexivity.
  - intros [-> | ->]; reflexivity.
  - intros rows data Hf Hd. eexists. exact (Hok rows data Hf Hd).
Qed.

Lemma export_attachment_follows_write_witness :
  ∃ path,
    fst (export Sample.engine
           (Sample.request (Some Sample.reader) Sample.page_two [])
           (Sample.empty_world Sample.catalogue Sample.two_books))
    = Ok (RAttachment path "Post-now.xlsx")
    ∧ path = "/tmp/export-0.5.xlsx".
Proof.
  destruct (export_attachment_follows_write Sample.engine
              (Sample.request (Some Sample.reader) Sample.page_two [])
              (Sample.empty_world Sample.catalogue Sample.two_books)
              Sample.catalogue (reader_allowed _) eq_refl)
    as (qb & path & name & (evs & Hlog) & Hpath & _ & Hname & _ & Hok).
  vm_compute in Hlog. injection Hlog as <- _.
  destruct (Hok Sample.two_books Sample.two_books) as (book & Hwritten & _).
  - vm_compute. reflexivity.
  - repeat constructor.
  - exists path. rewrite (Hwritten eq_refl).
    rewrite (Hname (or_introl eq_refl)). split; [reflexivity|exact Hpath].
Defined.

(** X14. Past the guard and [buildOptions], when the fetch answers: the
    sheet written is rectangular and follows the selected columns.  The
    header and every line have one cell per selected column, and cell [j] of
    line [i] is the value of column [j] for the [i]-th processed record. *)
Theorem export_lines_follow_columns (C : Collaborators) (ctx : Ctx) (w : World)
    (flds : Fields) :
  ¬ denies (auth_user ctx) (permission_of ctx "export") ->
  buildOptions C (fields w) = Ok flds ->
  ∃ qb cols,
    (∃ evs, log (snd (export C ctx w))
            = log w ++ EBuildOptions :: EFetch qb :: evs)
    ∧ qb_select qb = Some cols
    ∧ (∀ rows data,
         fetch C (db w) qb = Ok rows ->
         Forall2 (processed C (query ctx)) rows data ->
         ∃ path header lines,
           EWriteFile path [("Sheet1", header :: lines)]
             ∈ log (snd (export C ctx w))
           ∧ List.length header = List.length cols
           ∧ List.length lines = List.length data
           ∧ Forall (fun line => List.length line = List.length cols) lines
           ∧ (∀ i j row' k,
                data !! i = Some row' -> cols !! j = Some k ->
                ∃ line, lines !! i = Some line
                        ∧ line !! j = Some (getValue C (toJSON C row') k))).
Proof.
  intros Hn Hb.
  pose proof (export_outcome_run C ctx w flds Hn Hb) as [_ Hok].
  eexists _, (obj_keys (export_fields flds)).
  split; [exact (export_first_calls C ctx w flds Hn Hb)|].
  split; [reflexivity|].
  intros rows data Hf Hd. destruct (Hok rows data Hf Hd) as [Hwrote Hfailed].
  exists (tmpPath C (Some ("export-" ++ random_text C ++ ".xlsx")%string)),
    (List.map (header_cell C) (export_fields flds)),
    (List.map (fun row => sheet_line C (export_fields flds) (toJSON C row)) data).
  split; [|split; [|split; [|split]]].
  - fold (sheet C (export_fields flds) data).
    destruct (writeFileSync C _ [("Sheet1", sheet C (export_fields flds) data)])
      as [[]|e] eqn:Hw.
    + rewrite (Hwrote eq_refl). simpl.
      repeat (rewrite elem_of_app || rewrite elem_of_cons). auto 10.
    + rewrite (Hfailed e eq_refl). simpl.
      repeat (rewrite elem_of_app || rewrite elem_of_cons). auto 10.
  - unfold obj_keys. rewrite !List.length_map. reflexivity.
  - apply List.length_map.
  - apply List.Forall_forall. intros line Hin.
    apply in_map_iff in Hin as (row & <- & _).
    unfold sheet_line, obj_keys. rewrite !List.length_map. reflexivity.
  - intros i j row' k Hi Hj. eexists. split.
    + rewrite lookup_List_map, Hi. reflexivity.
    + unfold sheet_line. unfold obj_keys in Hj.
      rewrite lookup_List_map in Hj. rewrite lookup_List_map.
      destruct (export_fields flds !! j) as [[k' fd]|]; [|discriminate].
      simpl in *. congruence.
Qed.

Lemma export_lines_follow_columns_witness :
  ∃ qb cols,
    (∃ evs,
       log (snd (export Sample.engine
                   (Sample.request (Some Sample.reader) Sample.page_two [])
                   (Sample.empty_world Sample.catalogue Sample.two_books)))
       = [] ++ EBuildOptions :: EFetch qb :: evs)
    ∧ qb_select qb = Some cols.
Proof.
  destruct (export_lines_follow_columns Sample.engine
              (Sample.request (Some Sample.reader) Sample.page_two [])
              (Sample.empty_world Sample.catalogue Sample.two_books)
              Sample.catalogue (reader_allowed _) eq_refl)
    as (qb & cols & Hlog & Hsel & _).
  exists qb, cols. split; [exact Hlog|exact Hsel].
Defined.

(** ** The field sets of grid, form and view *)

Lemma cap_selectSize_capped fd : capped fd (cap_selectSize fd).
Proof.
  unfold capped, cap_selectSize.
  destruct (selectSize fd) as [n|] eqn:Hs.
  - destruct (Z.eqb_spec n 0) as [->|Hn]; simpl; rewrite ?Hs;
      repeat split; auto.
    + intros m [= <-] Hm. contradiction.
    + intros [H|H]; congruence.
  - rewrite Hs. repeat split; auto. intros n H. discriminate.
Qed.

Lemma grid_searchFields (flds : Fields) :
  List.filter (fun kv => bool_decide (searchable (snd kv) = Some true))
    (List.map (fun kv => if bool_decide (searchable (snd kv) = Some true)
                         then (fst kv, cap_selectSize (snd kv)) else kv) flds)
  = List.map (fun kv => (fst kv, cap_selectSize (snd kv)))
             (filter searchable_field flds).
Proof.
  induction flds as [|[k fd] rest IH]; [reflexivity|].
  rewrite filter_cons. cbn [List.map List.filter fst snd].
  destruct (decide (searchable_field (k, fd))) as [Hs|Hs];
    unfold searchable_field in Hs; cbn [snd] in Hs.
  - rewrite (bool_decide_eq_true_2 _ Hs). cbn [List.filter snd].
    destruct (cap_selectSize_capped fd) as (_ & Hsame & _).
    rewrite bool_decide_eq_true_2 by (rewrite Hsame; exact Hs).
    cbn [List.map fst snd]. rewrite IH. reflexivity.
  - rewrite (bool_decide_eq_false_2 _ Hs). cbn [List.filter snd].
    rewrite (bool_decide_eq_false_2 _ Hs). exact IH.
Qed.

Lemma grid_listed_keys (flds : Fields) :
  obj_keys
    (omitBy (fun v _ => bool_decide (listable v = Some false))
       (List.map (fun kv => if bool_decide (searchable (snd kv) = Some true)
                            then (fst kv, cap_selectSize (snd kv)) else kv)
                 flds))
  = obj_keys (omitBy (fun v _ => bool_decide (listable v = Some false)) flds).
Proof.
  unfold obj_keys, omitBy. induction flds as [|[k fd] rest IH]; [reflexivity|].
  cbn [List.map List.filter fst snd].
  destruct (bool_decide (searchable fd = Some true)); cbn [List.filter fst snd].
  - destruct (cap_selectSize_capped fd) as (Hsame & _).
    destruct (decide (listable fd = Some false)) as [Hl|Hl].
    + rewrite bool_decide_eq_true_2 by (rewrite Hsame; exact Hl).
      rewrite (bool_decide_eq_true_2 _ Hl). simpl. exact IH.
    + rewrite bool_decide_eq_false_2 by (rewrite Hsame; exact Hl).
      rewrite (bool_decide_eq_false_2 _ Hl). simpl. rewrite IH. reflexivity.
  - destruct (bool_decide (listable fd = Some false)); simpl; rewrite IH;
      reflexivity.
Qed.

(** X15. [grid] asks for no permission.  Once [buildOptions] has answered,
    its only call, it returns: as search fields the fields whose
    [searchable] flag is set, in the fields' order, each with its select size
    capped at 5 when it had one (and otherwise unchanged); as search model
    the same keys, each mapped to null; and as fields the keys of the fields
    whose [listable] flag is not [false].  The records are untouched. *)
Theorem grid_search_fields_capped (C : Collaborators) (ctx : Ctx) (w : World)
    (flds : Fields) :
  buildOptions C (fields w) = Ok flds ->
  ∃ searchFields searchModel listed,
    fst (grid C ctx w) = Ok (RGrid searchFields searchModel listed)
    ∧ log (snd (grid C ctx w)) = log w ++ [EBuildOptions]
    ∧ db (snd (grid C ctx w)) = db w
    ∧ Forall2 (fun kv kv' => fst kv' = fst kv ∧ capped (snd kv) (snd kv'))
              (filter searchable_field flds) searchFields
    ∧ obj_keys searchModel = obj_keys searchFields
    ∧ (∀ k v, (k, v) ∈ searchModel -> v = VNull)
    ∧ (∀ k, k ∈ obj_keys listed ↔
            ∃ fd, (k, fd) ∈ flds ∧ listable fd ≠ Some false).
Proof.
  intros Hb. unfold grid. run. rewrite Hb. simpl.
  eexists _, _, _. split; [reflexivity|]. split; [reflexivity|].
  split; [reflexivity|]. rewrite grid_searchFields. split; [|split; [|split]].
  - induction (filter searchable_field flds) as [|kv l IH]; constructor;
      [|exact IH].
    split; [reflexivity|apply cap_selectSize_capped].
  - unfold obj_keys. rewrite List.map_map. reflexivity.
  - intros k v Hin. apply list_elem_of_In, in_map_iff in Hin as (kv & Heq & _).
    congruence.
  - intros k. rewrite grid_listed_keys, obj_keys_omitBy. split.
    + intros (fd & Hin & Hp). exists fd. split; [exact Hin|].
      apply bool_decide_eq_false in Hp. exact Hp.
    + intros (fd & Hin & Hp). exists fd. split; [exact Hin|].
      apply bool_decide_eq_false. exact Hp.
Qed.

Lemma grid_search_fields_capped_witness :
  ∃ searchFields searchModel listed,
    fst (grid Sample.engine
           (Sample.request (Some Sample.nobody) Sample.no_query [])
           (Sample.empty_world Sample.searchables []))
    = Ok (RGrid searchFields searchModel listed)
    ∧ obj_keys searchFields = ["name"; "kind"]
    ∧ List.map (fun kv => selectSize (snd kv)) searchFields = [Some 5; None]
    ∧ searchModel = [("name", VNull); ("kind", VNull)]
    ∧ obj_keys listed = ["name"; "kind"; "notes"].
Proof.
  destruct (grid_search_fields_capped Sample.engine
              (Sample.request (Some Sample.nobody) Sample.no_query [])
              (Sample.empty_world Sample.searchables [])
              Sample.searchables eq_refl)
    as (searchFields & searchModel & listed & Hret & _).
  exists searchFields, searchModel, listed. split; [exact Hret|].
  vm_compute in Hret. injection Hret as <- <- <-.
  repeat split; reflexivity.
Defined.

(** For an actor that exposes [isRole], the predicate of [form] never throws:
    the filter is a plain filter. *)
Lemma form_filter ctx u holds (flds : Fields) :
  auth_user ctx = Some u -> isRole u = Some holds ->
  omitByM (fun v k =>
      if bool_decide (editable v = Some false) then Ok true
      else if bool_decide (k ∈ ["_id"; "created_at"; "updated_at"; "_actions"])
      then Ok true
      else lacks_role (auth_user ctx) (role v)) flds
  = Ok (List.filter
          (fun kv =>
             andb (andb (negb (bool_decide (editable (snd kv) = Some false)))
                        (negb (bool_decide
                                 (fst kv ∈ ["_id"; "created_at"; "updated_at";
                                            "_actions"]))))
                  (holds (role (snd kv)))) flds).
Proof.
  intros Hu Hr. induction flds as [|[k fd] rest IH]; [reflexivity|].
  cbn [omitByM List.filter fst snd]. rewrite IH.
  destruct (bool_decide (editable fd = Some false)); [reflexivity|].
  destruct (bool_decide (k ∈ _)); [reflexivity|].
  unfold lacks_role. rewrite Hu, Hr. simpl.
  destruct (holds (role fd)); reflexivity.
Qed.

(** X16. [form] asks for no permission.  For an actor that exposes [isRole],
    once [buildOptions] has answered, the fields it returns are exactly the
    fields that are editable (flag not [false]), are none of '_id',
    'created_at', 'updated_at' and '_actions', and whose role the actor
    holds, in the fields' order; it returns them with the labels and the
    model after exactly two calls, [buildOptions] and [labels], and a
    [labels] that throws reaches the caller. *)
Theorem form_fields_by_flag_and_role (C : Collaborators) (ctx : Ctx)
    (w : World) (flds : Fields) (u : Actor) (holds : option string -> bool) :
  buildOptions C (fields w) = Ok flds ->
  auth_user ctx = Some u -> isRole u = Some holds ->
  ∃ shown,
    (∀ k fd, (k, fd) ∈ shown ↔
             (k, fd) ∈ flds ∧ editable fd ≠ Some false
             ∧ (k ∉ ["_id"; "created_at"; "updated_at"; "_actions"])
             ∧ holds (role fd) = true)
    ∧ shown `sublist_of` flds
    ∧ (∀ lbls, labels C flds = Ok lbls ->
         form C ctx w
         = (Ok (RForm lbls shown (model ctx)),
            {| db := db w; fields := flds;
               log := log w ++ [EBuildOptions; ELabels] |}))
    ∧ (∀ e, labels C flds = Throw e -> fst (form C ctx w) = Throw e).
Proof.
  intros Hb Hu Hr. unfold form. run. rewrite Hb. simpl.
  rewrite (form_filter ctx u holds flds Hu Hr). simpl.
  exists (List.filter
            (fun kv =>
               andb (andb (negb (bool_decide (editable (snd kv) = Some false)))
                          (negb (bool_decide
                                   (fst kv ∈ ["_id"; "created_at";
                                              "updated_at"; "_actions"]))))
                    (holds (role (snd kv)))) flds).
  split; [|split; [apply filter_sublist_of|split]].
  - intros k fd. rewrite list_elem_of_In, filter_In, <- list_elem_of_In.
    cbn [fst snd]. rewrite !andb_true_iff, !negb_true_iff.
    rewrite !bool_decide_eq_false. tauto.
  - intros lbls ->. simpl. rewrite <- app_assoc. reflexivity.
  - intros e ->. reflexivity.
Qed.

Lemma form_fields_by_flag_and_role_witness :
  ∃ shown,
    (∀ k fd, (k, fd) ∈ shown ↔
             (k, fd) ∈ [("title", Sample.plain); ("salary", Sample.admin_only);
                        ("slug", Sample.locked); ("_id", Sample.plain)]
             ∧ editable fd ≠ Some false
             ∧ (k ∉ ["_id"; "created_at"; "updated_at"; "_actions"])
             ∧ (match role fd with
                | Some name => String.eqb name "staff"
                | None => true
                end) = true)
    ∧ form Sample.engine
        (Sample.request (Some Sample.staff) Sample.no_query [])
        (Sample.empty_world
           [("title", Sample.plain); ("salary", Sample.admin_only);
            ("slug", Sample.locked); ("_id", Sample.plain)] [])
      = (Ok (RForm (VObj ∅) shown ∅),
         {| db := [];
            fields := [("title", Sample.plain); ("salary", Sample.admin_only);
                       ("slug", Sample.locked); ("_id", Sample.plain)];
            log := [EBuildOptions; ELabels] |}).
Proof.
  destruct (form_fields_by_flag_and_role Sample.engine
              (Sample.request (Some Sample.staff) Sample.no_query [])
              (Sample.empty_world
                 [("title", Sample.plain); ("salary", Sample.admin_only);
                  ("slug", Sample.locked); ("_id", Sample.plain)] [])
              [("title", Sample.plain); ("salary", Sample.admin_only);
               ("slug", Sample.locked); ("_id", Sample.plain)]
              Sample.staff
              (fun r => match r with
                        | Some name => String.eqb name "staff"
                        | None => true
                        end)
              eq_refl eq_refl eq_refl)
    as (shown & Hshown & _ & Hret & _).
  exists shown. split; [exact Hshown|]. exact (Hret (VObj ∅) eq_refl).
Defined.

(** X17. Past the guard, once [buildOptions] and [labels] have answered,
    [view] returns the labels, the model, and exactly the fields that are
    viewable (flag not [false]) and are not '_actions', in the fields' order;
    unlike [form] it keeps the fields whose role the actor lacks. *)
Theorem view_fields_by_flag (C : Collaborators) (ctx : Ctx) (w : World)
    (flds : Fields) (lbls : value) :
  ¬ denies (auth_user ctx) (permission_of ctx "view") ->
  buildOptions C (fields w) = Ok flds ->
  labels C flds = Ok lbls ->
  ∃ shown,
    view C ctx w
    = (Ok (RForm lbls shown (model ctx)),
       {| db := db w; fields := flds;
          log := log w ++ [EBuildOptions; ELabels] |})
    ∧ (∀ k fd, (k, fd) ∈ shown ↔
               (k, fd) ∈ flds ∧ viewable fd ≠ Some false ∧ k ≠ "_actions")
    ∧ shown `sublist_of` flds.
Proof.
  intros Hn Hb Hl. unfold view. rewrite allowed_first by exact Hn. run.
  rewrite Hb. simpl. rewrite Hl. simpl. rewrite <- app_assoc.
  eexists. split; [reflexivity|]. split; [|apply filter_sublist_of].
  intros k fd. unfold omitBy.
  rewrite list_elem_of_In, filter_In, <- list_elem_of_In. cbn [fst snd].
  rewrite negb_true_iff, orb_false_iff, !bool_decide_eq_false.
  rewrite list_elem_of_singleton. tauto.
Qed.

Lemma view_fields_by_flag_witness :
  ∃ shown,
    view Sample.engine
      (Sample.request (Some Sample.staff) Sample.no_query [])
      (Sample.empty_world
         [("title", Sample.plain); ("salary", Sample.admin_only);
          ("_actions", Sample.plain)] [])
    = (Ok (RForm (VObj ∅) shown ∅),
       {| db := [];
          fields := [("title", Sample.plain); ("salary", Sample.admin_only);
                     ("_actions", Sample.plain)];
          log := [] ++ [EBuildOptions; ELabels] |})
    ∧ (∀ k fd, (k, fd) ∈ shown ↔
               (k, fd) ∈ [("title", Sample.plain);
                          ("salary", Sample.admin_only);
                          ("_actions", Sample.plain)]
               ∧ viewable fd ≠ Some false ∧ k ≠ "_actions")
    ∧ shown `sublist_of` [("title", Sample.plain);
                          ("salary", Sample.admin_only);
                          ("_actions", Sample.plain)].
Proof.
  apply (view_fields_by_flag Sample.engine
           (Sample.request (Some Sample.staff) Sample.no_query [])
           (Sample.empty_world
              [("title", Sample.plain); ("salary", Sample.admin_only);
               ("_actions", Sample.plain)] [])
           [("title", Sample.plain); ("salary", Sample.admin_only);
            ("_actions", Sample.plain)]
           (VObj ∅) (staff_allowed _) eq_refl eq_refl).
Defined.

(** ** The counts of stat *)

Lemma obj_get_set_eq {A} k (v : A) o : obj_get k (obj_set k v o) = Some v.
Proof.
  induction o as [|[k0 v0] o IH]; simpl.
  - rewrite String.eqb_refl. reflexivity.
  - destruct (String.eqb_spec k0 k) as [->|Hne]; simpl.
    + rewrite String.eqb_refl. reflexivity.
    + apply String.eqb_neq in Hne. rewrite Hne. exact IH.
Qed.

Lemma obj_get_set_ne {A} k k' (v : A) o :
  k ≠ k' -> obj_get k' (obj_set k v o) = obj_get k' o.
Proof.
  intros Hne. induction o as [|[k0 v0] o IH]; simpl.
  - apply String.eqb_neq in Hne. rewrite Hne. reflexivity.
  - destruct (String.eqb_spec k0 k) as [->|Hk]; simpl.
    + apply String.eqb_neq in Hne. rewrite Hne. reflexivity.
    + rewrite IH. reflexivity.
Qed.

Lemma obj_keys_set {A} k (v : A) o k' :
  k' ∈ obj_keys (obj_set k v o) ↔ k' = k ∨ k' ∈ obj_keys o.
Proof.
  unfold obj_keys. induction o as [|[k0 v0] o IH]; simpl.
  - rewrite list_elem_of_singleton. split; [auto|].
    intros [H|H]; [exact H|apply elem_of_nil in H; contradiction].
  - destruct (String.eqb_spec k0 k) as [->|Hk]; simpl.
    + rewrite elem_of_cons. tauto.
    + rewrite !elem_of_cons, IH. tauto.
Qed.

Lemma obj_set_NoDup {A} k (v : A) o :
  NoDup (obj_keys o) -> NoDup (obj_keys (obj_set k v o)).
Proof.
  induction o as [|[k0 v0] o IH]; simpl; intros Hnd.
  - apply NoDup_singleton.
  - apply NoDup_cons in Hnd as [Hnot Hnd].
    destruct (String.eqb_spec k0 k) as [->|Hk]; simpl.
    + apply NoDup_cons. split; assumption.
    + apply NoDup_cons. split; [|exact (IH Hnd)].
      intros Hin. apply (obj_keys_set k v o k0) in Hin as [Hin|Hin];
        [congruence|contradiction].
Qed.

(** In an object, the value at a key's position is the key's value. *)
Lemma obj_values_at_key {A} (o : Obj A) i k :
  NoDup (obj_keys o) -> obj_keys o !! i = Some k ->
  obj_values o !! i = obj_get k o.
Proof.
  revert i. induction o as [|[k0 v0] o IH]; intros i Hnd Hi.
  - destruct i; discriminate.
  - simpl in Hnd. apply NoDup_cons in Hnd as [Hnot Hnd].
    destruct i as [|i]; simpl in *.
    + injection Hi as ->. rewrite String.eqb_refl. reflexivity.
    + destruct (String.eqb_spec k0 k) as [->|Hk].
      * exfalso. apply Hnot. apply list_elem_of_lookup. eauto.
      * exact (IH i Hnd Hi).
Qed.

Lemma counts_keys rows acc k :
  k ∈ obj_keys (counts_into acc rows) ↔
  k ∈ obj_keys acc ∨ ∃ r, r ∈ rows ∧ String_ (fst r) = k.
Proof.
  unfold counts_into. revert acc. induction rows as [|r rows IH]; intros acc;
    simpl.
  - split; [auto|]. intros [H|(r & H & _)]; [exact H|].
    apply elem_of_nil in H. contradiction.
  - rewrite IH, obj_keys_set. split.
    + intros [[->|H]|(r' & Hin & Hk)].
      * right. exists r. split; [apply elem_of_cons; auto|reflexivity].
      * left. exact H.
      * right. exists r'. split; [apply elem_of_cons; auto|exact Hk].
    + intros [H|(r' & Hin & Hk)]; [auto|].
      apply elem_of_cons in Hin as [->|Hin]; [auto|]. right. eauto.
Qed.

Lemma counts_NoDup rows acc :
  NoDup (obj_keys acc) -> NoDup (obj_keys (counts_into acc rows)).
Proof.
  unfold counts_into. revert acc.
  induction rows as [|r rows IH]; intros acc Hnd; simpl; [exact Hnd|].
  apply IH. apply obj_set_NoDup. exact Hnd.
Qed.

Lemma counts_untouched rows acc k :
  (∀ r, r ∈ rows -> String_ (fst r) ≠ k) ->
  obj_get k (counts_into acc rows) = obj_get k acc.
Proof.
  unfold counts_into. revert acc.
  induction rows as [|r rows IH]; intros acc Hno; simpl; [reflexivity|].
  rewrite IH by (intros r' Hin; apply Hno, elem_of_cons; auto).
  apply obj_get_set_ne. apply Hno. apply elem_of_cons. auto.
Qed.

Lemma counts_last pre id c post acc :
  (∀ r, r ∈ post -> String_ (fst r) ≠ String_ id) ->
  obj_get (String_ id) (counts_into acc (pre ++ (id, c) :: post)) = Some c.
Proof.
  intros Hno. unfold counts_into. rewrite fold_left_app. simpl.
  fold (counts_into (obj_set (String_ id) c
                       (fold_left (fun o r => obj_set (String_ (fst r)) (snd r) o)
                                  pre acc)) post).
  rewrite counts_untouched by exact Hno. apply obj_get_set_eq.
Qed.

(** A key that occurs in the rows has a last occurrence. *)
Lemma last_occurrence (rows : list (value * value)) k :
  (∃ r, r ∈ rows ∧ String_ (fst r) = k) ->
  ∃ pre id c post,
    rows = pre ++ (id, c) :: post ∧ String_ id = k
    ∧ ∀ r, r ∈ post -> String_ (fst r) ≠ k.
Proof.
  induction rows as [|[id0 c0] rows IH]; intros (r & Hin & Hk).
  - apply elem_of_nil in Hin. contradiction.
  - destruct (decide (Exists (fun r' => String_ (fst r') = k) rows))
      as [Hlater|Hno].
    + apply Exists_exists in Hlater.
      destruct (IH Hlater) as (pre & id & c & post & -> & Hid & Hpost).
      exists ((id0, c0) :: pre), id, c, post. auto.
    + rewrite Exists_exists in Hno.
      apply elem_of_cons in Hin as [->|Hin]; [|exfalso; apply Hno; eauto].
      exists [], id0, c0, rows. split; [reflexivity|]. split; [exact Hk|].
      intros r' Hin' Hk'. apply Hno. eauto.
Qed.

(** X18. Past the guard, when the grouped count answers, [stat] returns one
    label per distinct group (groups are told apart by their text), the
    labels without repetition, and as data, position by position, the count
    of the last row counted for that group; the colours are the same four
    whatever the number of groups; the grouping field is the request's
    [group], 'os' when it has none, and the grouped count is the only call
    made. *)
Theorem stat_one_count_per_group (C : Collaborators) (ctx : Ctx) (w : World)
    (rows : list (value * value)) :
  ¬ denies (auth_user ctx) (permission_of ctx "stat") ->
  group_count C (db w) (default "os" (in_group (request_inputs ctx)))
    = Ok rows ->
  ∃ labels_ data,
    stat C ctx w
    = (Ok (RStat labels_ ["#41B883"; "#E46651"; "#00D8FF"; "#DD1B16"] data),
       {| db := db w; fields := fields w;
          log := log w
                 ++ [EGroupCount (default "os" (in_group (request_inputs ctx)))]
       |})
    ∧ NoDup labels_
    ∧ List.length data = List.length labels_
    ∧ (∀ k, k ∈ labels_ ↔ ∃ r, r ∈ rows ∧ String_ (fst r) = k)
    ∧ (∀ i k, labels_ !! i = Some k ->
         ∃ c pre id post,
           data !! i = Some c
           ∧ rows = pre ++ (id, c) :: post ∧ String_ id = k
           ∧ ∀ r, r ∈ post -> String_ (fst r) ≠ k).
Proof.
  intros Hn Hrows. unfold stat. rewrite allowed_first by exact Hn. run.
  rewrite Hrows. simpl.
  change (counts_by_id rows) with (counts_into [] rows).
  eexists _, _. split; [reflexivity|].
  assert (Hnd : NoDup (obj_keys (counts_into [] rows)))
    by (apply counts_NoDup; constructor).
  assert (Hkeys : ∀ k, k ∈ obj_keys (counts_into [] rows)
                       ↔ ∃ r, r ∈ rows ∧ String_ (fst r) = k).
  { intros k. rewrite counts_keys. split; [|auto].
    intros [H|H]; [apply elem_of_nil in H; contradiction|exact H]. }
  split; [exact Hnd|]. split; [|split; [exact Hkeys|]].
  - unfold obj_values, obj_keys. rewrite !List.length_map. reflexivity.
  - intros i k Hi.
    assert (Hin : k ∈ obj_keys (counts_into [] rows))
      by (apply list_elem_of_lookup; eauto).
    apply Hkeys, last_occurrence in Hin
      as (pre & id & c & post & -> & <- & Hpost).
    exists c, pre, id, post. split; [|auto].
    rewrite (obj_values_at_key _ i (String_ id) Hnd Hi).
    apply counts_last. exact Hpost.
Qed.

Lemma stat_one_count_per_group_witness :
  ∃ labels_ data,
    stat Sample.counting
      (Sample.request (Some Sample.reader) Sample.no_query [])
      (Sample.empty_world [] [])
    = (Ok (RStat labels_ ["#41B883"; "#E46651"; "#00D8FF"; "#DD1B16"] data),
       {| db := []; fields := []; log := [EGroupCount "os"] |})
    ∧ labels_ = ["ios"; "mac"; "true"; "linux"; "bsd"]
    ∧ data = [VNum 5; VNum 1; VNum 7; VNum 2; VNum 4].
Proof.
  destruct (stat_one_count_per_group Sample.counting
              (Sample.request (Some Sample.reader) Sample.no_query [])
              (Sample.empty_world [] [])
              [(VStr "ios", VNum 3); (VStr "mac", VNum 1);
               (VBool true, VNum 6); (VStr "ios", VNum 5);
               (VStr "true", VNum 7); (VStr "linux", VNum 2);
               (VStr "bsd", VNum 4)]
              (reader_allowed _) eq_refl)
    as (labels_ & data & Hret & _).
  exists labels_, data. split; [exact Hret|].
  vm_compute in Hret. injection Hret as <- <-. split; reflexivity.
Defined.

(** ** The lookups of options *)

Lemma split_not_nil sep s : split sep s ≠ [].
Proof.
  destruct s as [|c rest]; simpl; [discriminate|].
  destruct (Ascii.eqb c sep); [discriminate|].
  destruct (split sep rest); discriminate.
Qed.

Section OptionsRun.

Context (C : Collaborators).

(** What [options] does once the [where] input is parsed and rewritten. *)
Lemma options_lookup ctx w cond cond' :
  JSON_parse C (where_of ctx) = Ok cond ->
  options_where C (text_of ctx) cond = Ok cond' ->
  log (snd (options C ctx w))
  = log w
    ++ [EFetchOptions (default "_id" (in_value (request_inputs ctx)))
          (text_of ctx) cond'
          (parseInt C (default (VNum 10) (in_limit (request_inputs ctx))))]
  ∧ (∀ ret_,
       fetchOptions C (db w) (default "_id" (in_value (request_inputs ctx)))
         (text_of ctx) cond'
         (parseInt C (default (VNum 10) (in_limit (request_inputs ctx))))
       = Ok ret_ ->
       fst (options C ctx w) = Ok (ROptions ret_))
  ∧ (∀ e,
       fetchOptions C (db w) (default "_id" (in_value (request_inputs ctx)))
         (text_of ctx) cond'
         (parseInt C (default (VNum 10) (in_limit (request_inputs ctx))))
       = Throw e ->
       fst (options C ctx w) = Throw e).
Proof.
  intros Hparse Hwhere. unfold options. run.
  fold (where_of ctx). fold (text_of ctx). rewrite Hparse, Hwhere. simpl.
  split; [|split].
  - destruct (fetchOptions C _ _ _ _ _); reflexivity.
  - intros ret_ ->. reflexivity.
  - intros e ->. reflexivity.
Qed.

Lemma options_throws ctx w cond e :
  JSON_parse C (where_of ctx) = Ok cond ->
  options_where C (text_of ctx) cond = Throw e ->
  options C ctx w = (Throw e, w).
Proof.
  intros Hparse Hwhere. unfold options. run.
  fold (where_of ctx). fold (text_of ctx). rewrite Hparse, Hwhere. reflexivity.
Qed.

End OptionsRun.

(** X19. [options] fails before any lookup, with the world as it was, when
    its [where] input does not parse, and when a constraint that has to be
    converted (truthy, under a [text] with a space) does not compile as a
    regular expression. *)
Theorem options_fails_before_lookup (C : Collaborators) (ctx : Ctx)
    (w : World) :
  (∀ e, JSON_parse C (where_of ctx) = Throw e ->
        options C ctx w = (Throw e, w))
  ∧ (∀ cond constraint e,
       JSON_parse C (where_of ctx) = Ok cond ->
       cond !! text_of ctx = Some constraint ->
       truthy constraint = true ->
       includes " " (text_of ctx) = true ->
       RegExp_new C constraint "i" = Throw e ->
       options C ctx w = (Throw e, w)).
Proof.
  split.
  - intros e He. unfold options. run. fold (where_of ctx). rewrite He.
    reflexivity.
  - intros cond constraint e Hparse Hc Ht Hsp Hre.
    apply (options_throws C ctx w cond e Hparse).
    unfold options_where. rewrite Hc, Ht, Hsp.
    pose proof (split_not_nil " " (text_of ctx)) as Hne.
    destruct (split " " (text_of ctx)) as [|piece rest]; [contradiction|].
    simpl. rewrite Hre. reflexivity.
Qed.



(** X21. When [text] has no space and the parsed [where] has a truthy
    constraint under it, [options] converts nothing: the lookup receives the
    parsed object with '$or' set to the empty list (replacing a '$or' the
    client sent) and every other key, the key [text] when it is not '$or'
    included, as parsed. *)
Theorem options_single_field_empty_or (C : Collaborators) (ctx : Ctx)
    (w : World) (cond : gmap string value) (c : value) :
  JSON_parse C (where_of ctx) = Ok cond ->
  cond !! text_of ctx = Some c ->
  truthy c = true ->
  includes " " (text_of ctx) = false ->
  ∃ cond',
    log (snd (options C ctx w))
    = log w
      ++ [EFetchOptions (default "_id" (in_value (request_inputs ctx)))
            (text_of ctx) cond'
            (parseInt C (default (VNum 10) (in_limit (request_inputs ctx))))]
    ∧ cond' !! "$or" = Some (VArr [])
    ∧ (∀ k, k ≠ "$or" -> cond' !! k = cond !! k).
Proof.
  intros Hparse Hc Ht Hsp.
  destruct (options_lookup C ctx w cond (<["$or" := VArr []]> cond) Hparse)
    as (Hlog & _).
  { unfold options_where. rewrite Hc, Ht, Hsp. reflexivity. }
  eexists. split; [exact Hlog|]. split; [apply lookup_insert_eq|].
  intros k Hk. apply lookup_insert_ne. congruence.
Qed.

Lemma options_single_field_empty_or_witness :
  ∃ cond',
    log (snd (options Sample.engine
                (Sample.lookup_request
                   (Some "name") (Some (Sample.json_pair "name" "abc")))
                (Sample.empty_world [] [])))
    = [] ++ [EFetchOptions "_id" "name" cond' (Fin 10)]
    ∧ cond' !! "$or" = Some (VArr [])
    ∧ (∀ k, k ≠ "$or" ->
            cond' !! k = ({[ "name" := VStr "abc" ]} : gmap string value) !! k).
Proof.
  apply (options_single_field_empty_or Sample.engine
           (Sample.lookup_request
              (Some "name") (Some (Sample.json_pair "name" "abc")))
           (Sample.empty_world [] [])
           {[ "name" := VStr "abc" ]} (VStr "abc")).
  - vm_compute. reflexivity.
  - vm_compute. reflexivity.
  - reflexivity.
  - reflexivity.
Defined.
